(** * Transposition table entries and addressing (tt.h)

    A shallow embedding of the [TTEntry] class and of the inline members of
    [TranspositionTable] found in tt.h, together with the properties of the
    dual-bound record that the design document states about them.

    Integers are modelled as [Z]; every narrowing conversion of the source
    ([(uint8_t)], [(uint16_t)], [(uint32_t)], [(int16_t)]) is written out as
    an explicit wrap-around. *)

From Stdlib Require Import ZArith Lia Bool.
From stdpp Require Import base list.

Local Open Scope Z_scope.

(** ** Fixed-width integers *)

Module Cast.

Definition uint8 (x : Z) : Z := x mod 2 ^ 8.
Definition uint16 (x : Z) : Z := x mod 2 ^ 16.
Definition uint32 (x : Z) : Z := x mod 2 ^ 32.
Definition size_t (x : Z) : Z := x mod 2 ^ 64.

(** Two's complement narrowing to 16 bits. *)
Definition int16 (x : Z) : Z := (x + 2 ^ 15) mod 2 ^ 16 - 2 ^ 15.

Definition in_uint8 (x : Z) : Prop := 0 <= x < 2 ^ 8.
Definition in_uint16 (x : Z) : Prop := 0 <= x < 2 ^ 16.
Definition in_uint32 (x : Z) : Prop := 0 <= x < 2 ^ 32.
Definition in_int16 (x : Z) : Prop := - 2 ^ 15 <= x < 2 ^ 15.

(** C++ truth value of an integer used as a condition. *)
Definition truthy (x : Z) : bool := negb (x =? 0).

End Cast.
Export Cast.

(** ** Constants of types.h

    types.h is not among the sources.  The two single-bit bounds follow the
    data model of the design document (a bit mask over UPPER and LOWER, NONE
    being the empty mask).  The remaining constants are kept abstract: the
    two "none" sentinels, and the enumerator [BOUND_EXACT], whose relation to
    the two bits is stated as a hypothesis wherever a property needs it. *)

(** Modelled from the spec: types.h is missing; NONE is the empty mask. *)
Definition BOUND_NONE : Z := 0.
(** Modelled from the spec: types.h is missing; UPPER is one bit of the mask. *)
Definition BOUND_UPPER : Z := 1.
(** Modelled from the spec: types.h is missing; LOWER is the other bit. *)
Definition BOUND_LOWER : Z := 2.

Class TypesH : Type := {
  VALUE_NONE : Z;
  DEPTH_NONE : Z;
  BOUND_EXACT : Z
}.

(** The data model's reading of EXACT: both bits, and nothing else. *)
Definition exact_is_both `{TypesH} : Prop :=
  BOUND_EXACT = Z.lor BOUND_UPPER BOUND_LOWER.

(** The weaker reading: EXACT has both bits, and possibly a flag of its own. *)
Definition exact_has_both `{TypesH} : Prop :=
  Z.testbit BOUND_EXACT 0 = true /\ Z.testbit BOUND_EXACT 1 = true.

(** ** TTEntry *)

Record TTEntry : Type := mkTTEntry {
  key32 : Z;        (* uint32_t *)
  move16 : Z;       (* uint16_t *)
  bound : Z;        (* uint8_t *)
  generation8 : Z;  (* uint8_t *)
  valueLower : Z;   (* int16_t *)
  depthLower : Z;   (* int16_t *)
  valueUpper : Z;   (* int16_t *)
  depthUpper : Z    (* int16_t *)
}.

(** Field assignments. *)
Definition set_key32 (e : TTEntry) (x : Z) : TTEntry :=
  mkTTEntry x (move16 e) (bound e) (generation8 e)
            (valueLower e) (depthLower e) (valueUpper e) (depthUpper e).
Definition set_move16 (e : TTEntry) (x : Z) : TTEntry :=
  mkTTEntry (key32 e) x (bound e) (generation8 e)
            (valueLower e) (depthLower e) (valueUpper e) (depthUpper e).
Definition set_bound (e : TTEntry) (x : Z) : TTEntry :=
  mkTTEntry (key32 e) (move16 e) x (generation8 e)
            (valueLower e) (depthLower e) (valueUpper e) (depthUpper e).
Definition set_generation8 (e : TTEntry) (x : Z) : TTEntry :=
  mkTTEntry (key32 e) (move16 e) (bound e) x
            (valueLower e) (depthLower e) (valueUpper e) (depthUpper e).
Definition set_valueLower (e : TTEntry) (x : Z) : TTEntry :=
  mkTTEntry (key32 e) (move16 e) (bound e) (generation8 e)
            x (depthLower e) (valueUpper e) (depthUpper e).
Definition set_depthLower (e : TTEntry) (x : Z) : TTEntry :=
  mkTTEntry (key32 e) (move16 e) (bound e) (generation8 e)
            (valueLower e) x (valueUpper e) (depthUpper e).
Definition set_valueUpper (e : TTEntry) (x : Z) : TTEntry :=
  mkTTEntry (key32 e) (move16 e) (bound e) (generation8 e)
            (valueLower e) (depthLower e) x (depthUpper e).
Definition set_depthUpper (e : TTEntry) (x : Z) : TTEntry :=
  mkTTEntry (key32 e) (move16 e) (bound e) (generation8 e)
            (valueLower e) (depthLower e) (valueUpper e) x.

(** Every field holds a value of its declared type. *)
Record entry_wf (e : TTEntry) : Prop := mk_entry_wf {
  wf_key32 : in_uint32 (key32 e);
  wf_move16 : in_uint16 (move16 e);
  wf_bound : in_uint8 (bound e);
  wf_generation8 : in_uint8 (generation8 e);
  wf_valueLower : in_int16 (valueLower e);
  wf_depthLower : in_int16 (depthLower e);
  wf_valueUpper : in_int16 (valueUpper e);
  wf_depthUpper : in_int16 (depthUpper e)
}.

(** A zero-filled record, as left by [clear]. *)
Definition zero_entry : TTEntry := mkTTEntry 0 0 0 0 0 0 0 0.

Section Entry.

Context `{TypesH}.

(** [TTEntry::save] *)
Definition save (e : TTEntry) (k v b d m g : Z) : TTEntry :=
  let e := set_key32 e (uint32 k) in
  let e := set_move16 e (uint16 m) in
  let e := set_bound e (uint8 b) in
  let e := set_generation8 e (uint8 g) in
  let e := set_valueUpper e
             (int16 (if truthy (Z.land b BOUND_UPPER) then v else VALUE_NONE)) in
  let e := set_depthUpper e
             (int16 (if truthy (Z.land b BOUND_UPPER) then d else DEPTH_NONE)) in
  let e := set_valueLower e
             (int16 (if truthy (Z.land b BOUND_LOWER) then v else VALUE_NONE)) in
  let e := set_depthLower e
             (int16 (if truthy (Z.land b BOUND_LOWER) then d else DEPTH_NONE)) in
  e.

(** The block of [TTEntry::update] guarded by [b & BOUND_UPPER]. *)
Definition update_upper (e : TTEntry) (v b d : Z) : TTEntry :=
  if truthy (Z.land b BOUND_UPPER) then
    let e := set_valueUpper e (int16 v) in
    let e := set_depthUpper e (int16 d) in
    if truthy (Z.land (bound e) BOUND_LOWER) && (v <? valueLower e) then
      let e := set_bound e (uint8 (Z.lxor (bound e) BOUND_LOWER)) in
      let e := set_valueLower e (int16 VALUE_NONE) in
      let e := set_depthLower e (int16 DEPTH_NONE) in
      e
    else e
  else e.

(** The block of [TTEntry::update] guarded by [b & BOUND_LOWER]. *)
Definition update_lower (e : TTEntry) (v b d : Z) : TTEntry :=
  if truthy (Z.land b BOUND_LOWER) then
    let e := set_valueLower e (int16 v) in
    let e := set_depthLower e (int16 d) in
    if truthy (Z.land (bound e) BOUND_UPPER) && (v >? valueUpper e) then
      let e := set_bound e (uint8 (Z.lxor (bound e) BOUND_UPPER)) in
      let e := set_valueUpper e (int16 VALUE_NONE) in
      let e := set_depthUpper e (int16 DEPTH_NONE) in
      e
    else e
  else e.

(** [TTEntry::update] *)
Definition update (e : TTEntry) (v b d m g : Z) : TTEntry :=
  let e := set_move16 e (uint16 m) in
  let e := set_generation8 e (uint8 g) in
  let e := if bound e =? BOUND_EXACT
           then set_bound e (uint8 (Z.lor BOUND_UPPER BOUND_LOWER))
           else e in
  let e := update_upper e v b d in
  let e := update_lower e v b d in
  set_bound e (uint8 (Z.lor (bound e) (uint8 b))).

(** [TTEntry::set_generation] *)
Definition set_generation (e : TTEntry) (g : Z) : TTEntry :=
  set_generation8 e (uint8 g).

(** Accessors. *)
Definition key (e : TTEntry) : Z := key32 e.
Definition depth (e : TTEntry) : Z := depthLower e.
Definition depth_upper (e : TTEntry) : Z := depthUpper e.
Definition move (e : TTEntry) : Z := move16 e.
Definition value (e : TTEntry) : Z := valueLower e.
Definition value_upper (e : TTEntry) : Z := valueUpper e.
Definition type (e : TTEntry) : Z := bound e.
Definition generation (e : TTEntry) : Z := generation8 e.

(** The stored sentinels: the "none" constants as 16-bit fields hold them. *)
Definition value_none16 : Z := int16 VALUE_NONE.
Definition depth_none16 : Z := int16 DEPTH_NONE.

(** Bound bits of a record. *)
Definition has_upper (e : TTEntry) : bool := truthy (Z.land (bound e) BOUND_UPPER).
Definition has_lower (e : TTEntry) : bool := truthy (Z.land (bound e) BOUND_LOWER).

End Entry.

(** ** Sequences of writes to one record *)

Inductive EntryOp : Type :=
| OpSave (k v b d m g : Z)
| OpUpdate (v b d m g : Z).

Section EntryOps.

Context `{TypesH}.

Definition apply_op (e : TTEntry) (op : EntryOp) : TTEntry :=
  match op with
  | OpSave k v b d m g => save e k v b d m g
  | OpUpdate v b d m g => update e v b d m g
  end.

Definition run_ops (e : TTEntry) (ops : list EntryOp) : TTEntry :=
  fold_left apply_op ops e.

(** A value/depth pair whose bound bit is clear holds the sentinels. *)
Definition pair_invariant (e : TTEntry) : Prop :=
  (has_upper e = false ->
     valueUpper e = value_none16 /\ depthUpper e = depth_none16) /\
  (has_lower e = false ->
     valueLower e = value_none16 /\ depthLower e = depth_none16).

End EntryOps.

(** ** Clusters and the table *)

(** [const int ClusterSize = 4] *)
Definition ClusterSize : Z := 4.

Record TTCluster : Type := mkTTCluster {
  data : list TTEntry   (* TTEntry data[ClusterSize] *)
}.

(** A cluster holds exactly [ClusterSize] records. *)
Definition cluster_wf (c : TTCluster) : Prop :=
  Z.of_nat (length (data c)) = ClusterSize.

(** A pointer into the table: which cluster, and which slot of its [data]. *)
Record TTEntryPtr : Type := mkTTEntryPtr {
  cluster_of : nat;
  slot_of : nat
}.

(** Modelled from the spec: the generation distance of a record from the
    current epoch is not computed in tt.h (the aging logic lives in the
    missing tt.cpp); the design document defines it modulo 256. *)
Definition gen_distance (current : Z) (e : TTEntry) : Z :=
  (current - generation e) mod 2 ^ 8.

(** *** Replacement inside one cluster

    [TranspositionTable::store] is only declared in tt.h.  The scan below is
    written from the design document: a record whose fingerprint matches is
    merged in place, else a never-used record is initialised, else the most
    evictable record is overwritten. *)

Section Replacement.

Context `{TypesH}.

(** The weight of one generation step against one unit of depth: a policy
    constant the design document leaves open. *)
Variable GenWeight : Z.

(** Modelled from the spec: tt.cpp is missing; the eviction score grows
    with the generation distance and shrinks with the stored depth. *)
Definition eviction_score (current : Z) (e : TTEntry) : Z :=
  GenWeight * gen_distance current e - depth e.

(** Modelled from the spec: tt.cpp is missing; [a] is a better victim than
    [b] when its score is higher, or equal with a lower depth. *)
Definition more_evictable (current : Z) (a b : TTEntry) : bool :=
  (eviction_score current b <? eviction_score current a)
  || ((eviction_score current a =? eviction_score current b)
      && (depth a <? depth b)).

(** Modelled from the spec: tt.cpp is missing; one pass over the cluster that
    keeps the best victim seen so far. *)
Fixpoint select_victim (current : Z) (best : nat * TTEntry) (i : nat)
    (l : list TTEntry) : nat * TTEntry :=
  match l with
  | [] => best
  | e :: l' =>
      select_victim current
        (if more_evictable current e (snd best) then (i, e) else best)
        (S i) l'
  end.

(** Modelled from the spec: tt.cpp is missing; the victim of a cluster, the
    scan starting from its first record. *)
Definition victim (current : Z) (c : list TTEntry) : option (nat * TTEntry) :=
  match c with
  | [] => None
  | e :: l => Some (select_victim current (0%nat, e) 1%nat l)
  end.

(** Modelled from the spec: tt.cpp is missing; [store] on the records of the
    addressed cluster, [k32] being the low 32 bits of the position key. *)
Definition store_cluster (current k32 v b d m : Z) (c : list TTEntry)
    : list TTEntry :=
  match list_find (fun e => key e = k32) c with
  | Some (i, e) => <[i := update e v b d m current]> c
  | None =>
      match list_find (fun e => key e = 0) c with
      | Some (i, e) => <[i := save e k32 v b d m current]> c
      | None =>
          match victim current c with
          | Some (i, e) => <[i := save e k32 v b d m current]> c
          | None => c
          end
      end
  end.

End Replacement.

Module TranspositionTable.

Record t : Type := mk {
  size : Z;                  (* size_t: number of clusters *)
  entries : list TTCluster;  (* TTCluster* *)
  generation : Z             (* uint8_t *)
}.

Definition set_entries (tt : t) (cs : list TTCluster) : t :=
  mk (size tt) cs (generation tt).

(** The index expression of [first_entry]:
    [((uint32_t)posKey) & (size - 1)], computed in [size_t]. *)
Definition cluster_index (tt : t) (posKey : Z) : Z :=
  Z.land (uint32 posKey) (size_t (size tt - 1)).

(** [TranspositionTable::first_entry]: the address of [entries[...].data]. *)
Definition first_entry (tt : t) (posKey : Z) : TTEntryPtr :=
  mkTTEntryPtr (Z.to_nat (cluster_index tt posKey)) 0.

(** Reading and writing through a pointer. *)
Definition deref (tt : t) (p : TTEntryPtr) : option TTEntry :=
  match entries tt !! cluster_of p with
  | Some c => data c !! slot_of p
  | None => None
  end.

Definition write (tt : t) (p : TTEntryPtr) (f : TTEntry -> TTEntry) : t :=
  set_entries tt
    (alter (fun c => mkTTCluster (alter f (slot_of p) (data c)))
           (cluster_of p) (entries tt)).

Section WithTypes.

Context `{TypesH}.

(** [TranspositionTable::refresh] *)
Definition refresh (tt : t) (tte : TTEntryPtr) : t :=
  write tt tte (fun e => set_generation e (generation tt)).

(** Modelled from the spec: [TranspositionTable::store] is declared in tt.h
    but defined in the missing tt.cpp; it rewrites the cluster addressed by
    the key, stamping records with the table's current generation. *)
Definition store (GenWeight : Z) (tt : t) (posKey v b d m : Z) : t :=
  set_entries tt
    (alter (fun c => mkTTCluster
                       (store_cluster GenWeight (generation tt)
                                      (uint32 posKey) v b d m (data c)))
           (cluster_of (first_entry tt posKey)) (entries tt)).

End WithTypes.

End TranspositionTable.

(** [extern TranspositionTable TT] *)
Module TT := TranspositionTable.

(** ** A sample instantiation of the constants

    Sentinels that fit in 16 bits and lie outside the range of search values
    and depths, and EXACT as the union of the two bits. *)
Definition sample_types : TypesH := {|
  VALUE_NONE := 30002;
  DEPTH_NONE := -254;
  BOUND_EXACT := 3
|}.

(** The same sentinels, with EXACT carrying a flag of its own. *)
Definition flagged_types : TypesH := {|
  VALUE_NONE := 30002;
  DEPTH_NONE := -254;
  BOUND_EXACT := 7
|}.

(** ** Sample data *)

(** A record holding a lower bound only, as [save] leaves it. *)
Definition lower_only : TTEntry := mkTTEntry 4660 1 2 1 50 10 30002 (-254).

(** A record that holds no bound, as [save] with bound NONE leaves it. *)
Definition no_bound : TTEntry := mkTTEntry 7 3 0 1 30002 (-254) 30002 (-254).

(** A table of one full cluster, in epoch 5. *)
Definition full_cluster : TTCluster :=
  mkTTCluster
    [ mkTTEntry 11 1 2 5 40 9 30002 (-254);
      mkTTEntry 12 2 1 3 30002 (-254) 10 20;
      mkTTEntry 13 3 3 3 25 4 25 4;
      mkTTEntry 14 4 2 4 70 2 30002 (-254) ].

Definition small_table : TT.t := TT.mk 1 [full_cluster] 5.

(** ** Contracts of a merge

    The state a merge leaves behind, [e] being the record before the call
    and [e'] the record after it. *)

Section Contracts.

Context `{TypesH}.

(** The upper pair is the new one; the lower pair is dropped when the stored
    lower value exceeds the new upper value, and kept otherwise. *)
Definition upper_merged (e e' : TTEntry) (v d : Z) : Prop :=
  valueUpper e' = v /\ depthUpper e' = d /\
  (has_lower e = true /\ valueLower e > v ->
     has_lower e' = false /\
     valueLower e' = value_none16 /\ depthLower e' = depth_none16) /\
  (~ (has_lower e = true /\ valueLower e > v) ->
     has_lower e' = has_lower e /\
     valueLower e' = valueLower e /\ depthLower e' = depthLower e).

(** The lower pair is the new one; the upper pair is dropped when the new
    lower value exceeds the stored upper value, and kept otherwise. *)
Definition lower_merged (e e' : TTEntry) (v d : Z) : Prop :=
  valueLower e' = v /\ depthLower e' = d /\
  (has_upper e = true /\ v > valueUpper e ->
     has_upper e' = false /\
     valueUpper e' = value_none16 /\ depthUpper e' = depth_none16) /\
  (~ (has_upper e = true /\ v > valueUpper e) ->
     has_upper e' = has_upper e /\
     valueUpper e' = valueUpper e /\ depthUpper e' = depthUpper e).

(** Both pairs are the new one, and both bits are set. *)
Definition both_merged (e' : TTEntry) (v d : Z) : Prop :=
  valueUpper e' = v /\ depthUpper e' = d /\
  valueLower e' = v /\ depthLower e' = d /\
  has_upper e' = true /\ has_lower e' = true.

(** Modelled from the spec: the order behind victim selection; [a] is no
    better a victim than [b] when its score is lower, or equal with a depth
    at least as large. *)
Definition no_better (GenWeight current : Z) (a b : TTEntry) : Prop :=
  eviction_score GenWeight current a <= eviction_score GenWeight current b /\
  (eviction_score GenWeight current a = eviction_score GenWeight current b ->
   depth b <= depth a).

End Contracts.

(** ** Further invariants of a record *)

(** When both bounds are stored, the lower value does not exceed the upper
    one: the window between them is not empty. *)
Definition window_consistent (e : TTEntry) : Prop :=
  has_upper e = true -> has_lower e = true -> valueLower e <= valueUpper e.

(** The value an operation carries fits in 16 bits. *)
Definition op_value_in_range (op : EntryOp) : Prop :=
  match op with
  | OpSave _ v _ _ _ _ => in_int16 v
  | OpUpdate v _ _ _ _ => in_int16 v
  end.

(** The operation is a merge. *)
Definition is_update (op : EntryOp) : bool :=
  match op with
  | OpSave _ _ _ _ _ _ => false
  | OpUpdate _ _ _ _ _ => true
  end.

(** * Properties *)

(** ** Narrowing conversions *)

Section CastFacts.

Lemma uint8_small x : in_uint8 x -> uint8 x = x.
Proof. unfold in_uint8, uint8. intros. apply Z.mod_small. lia. Qed.

Lemma uint16_small x : in_uint16 x -> uint16 x = x.
Proof. unfold in_uint16, uint16. intros. apply Z.mod_small. lia. Qed.

Lemma uint32_small x : in_uint32 x -> uint32 x = x.
Proof. unfold in_uint32, uint32. intros. apply Z.mod_small. lia. Qed.

Lemma int16_small x : in_int16 x -> int16 x = x.
Proof.
  unfold in_int16, int16. intros.
  rewrite Z.mod_small by lia. lia.
Qed.

Lemma uint8_range x : in_uint8 (uint8 x).
Proof. unfold in_uint8, uint8. apply Z.mod_pos_bound. lia. Qed.

Lemma uint16_range x : in_uint16 (uint16 x).
Proof. unfold in_uint16, uint16. apply Z.mod_pos_bound. lia. Qed.

Lemma uint32_range x : in_uint32 (uint32 x).
Proof. unfold in_uint32, uint32. apply Z.mod_pos_bound. lia. Qed.

Lemma int16_range x : in_int16 (int16 x).
Proof.
  unfold in_int16, int16.
  pose proof (Z.mod_pos_bound (x + 2 ^ 15) (2 ^ 16)). lia.
Qed.

Lemma testbit_uint8 x i : 0 <= i < 8 -> Z.testbit (uint8 x) i = Z.testbit x i.
Proof. intros. unfold uint8. apply Z.mod_pow2_bits_low. lia. Qed.

Lemma testbit_uint8_high x i : 8 <= i -> Z.testbit (uint8 x) i = false.
Proof. intros. unfold uint8. apply Z.mod_pow2_bits_high. lia. Qed.

(** Masking with a single bit tests that bit. *)
Lemma land_pow2 x k :
  0 <= k -> Z.land x (2 ^ k) = if Z.testbit x k then 2 ^ k else 0.
Proof.
  intros Hk. apply Z.bits_inj'. intros i Hi.
  rewrite Z.land_spec, Z.pow2_bits_eqb by lia.
  destruct (Z.eqb_spec k i) as [->|Hne].
  - rewrite andb_true_r. destruct (Z.testbit x i) eqn:E.
    + rewrite Z.pow2_bits_true; auto.
    + apply eq_sym, Z.bits_0.
  - rewrite andb_false_r. destruct (Z.testbit x k).
    + rewrite Z.pow2_bits_false; auto.
    + apply eq_sym, Z.bits_0.
Qed.

Lemma truthy_land_pow2 x k : 0 <= k -> truthy (Z.land x (2 ^ k)) = Z.testbit x k.
Proof.
  intros Hk. unfold truthy. rewrite land_pow2 by assumption.
  destruct (Z.testbit x k); [|reflexivity].
  destruct (Z.eqb_spec (2 ^ k) 0) as [E|]; [|reflexivity].
  pose proof (Z.pow_pos_nonneg 2 k). lia.
Qed.

Lemma truthy_upper x : truthy (Z.land x BOUND_UPPER) = Z.testbit x 0.
Proof. apply (truthy_land_pow2 x 0). lia. Qed.

Lemma truthy_lower x : truthy (Z.land x BOUND_LOWER) = Z.testbit x 1.
Proof. apply (truthy_land_pow2 x 1). lia. Qed.

End CastFacts.

(** ** Records *)

Lemma testbit_uint8_0 x : Z.testbit (uint8 x) 0 = Z.testbit x 0.
Proof. apply testbit_uint8. lia. Qed.

Lemma testbit_uint8_1 x : Z.testbit (uint8 x) 1 = Z.testbit x 1.
Proof. apply testbit_uint8. lia. Qed.

Ltac entry_cbn :=
  cbn [key32 move16 bound generation8 valueLower depthLower valueUpper depthUpper
       set_key32 set_move16 set_bound set_generation8
       set_valueLower set_depthLower set_valueUpper set_depthUpper
       key depth depth_upper move value value_upper type generation] in *.

(** Case analysis on the conditions of the code, innermost first. *)
Ltac split_ifs :=
  repeat match goal with
  | |- context [if ?c then _ else _] =>
      lazymatch c with
      | context [if _ then _ else _] => fail
      | _ => destruct c eqn:?; entry_cbn
      end
  end.

(** Bound tests as bits 0 and 1 of the flags. *)
Ltac bits :=
  unfold has_upper, has_lower in *; entry_cbn;
  rewrite ?truthy_upper, ?truthy_lower in *;
  rewrite ?testbit_uint8_0, ?testbit_uint8_1, ?Z.lor_spec, ?Z.lxor_spec in *;
  change (Z.testbit BOUND_UPPER 0) with true in *;
  change (Z.testbit BOUND_UPPER 1) with false in *;
  change (Z.testbit BOUND_LOWER 0) with false in *;
  change (Z.testbit BOUND_LOWER 1) with true in *.

Ltac bool_close :=
  repeat match goal with
  | |- _ /\ _ => split
  | |- _ -> _ => intro
  end;
  repeat match goal with
  | _ : context [Z.testbit ?x ?i] |- _ =>
      lazymatch x with
      | context [Z.lor] => fail
      | context [Z.lxor] => fail
      | context [uint8] => fail
      | _ => destruct (Z.testbit x i)
      end
  end;
  cbn [andb orb xorb negb] in *; try discriminate; try tauto; try lia; auto.

Section EntryFacts.

Context `{TypesH}.

(** *** [save] *)

Lemma save_fields e k v b d m g :
  save e k v b d m g =
  mkTTEntry (uint32 k) (uint16 m) (uint8 b) (uint8 g)
    (int16 (if Z.testbit b 1 then v else VALUE_NONE))
    (int16 (if Z.testbit b 1 then d else DEPTH_NONE))
    (int16 (if Z.testbit b 0 then v else VALUE_NONE))
    (int16 (if Z.testbit b 0 then d else DEPTH_NONE)).
Proof.
  unfold save. entry_cbn. rewrite truthy_upper, truthy_lower. reflexivity.
Qed.

Lemma save_wf e k v b d m g : entry_wf (save e k v b d m g).
Proof.
  rewrite save_fields. constructor; entry_cbn;
    auto using uint8_range, uint16_range, uint32_range, int16_range.
Qed.

Lemma save_invariant e k v b d m g : pair_invariant (save e k v b d m g).
Proof.
  rewrite save_fields. unfold pair_invariant, value_none16, depth_none16.
  bits. split; intros ->; auto.
Qed.

(** *** [update] *)

Lemma update_move16 e v b d m g : move16 (update e v b d m g) = uint16 m.
Proof.
  destruct e. unfold update, update_upper, update_lower. entry_cbn.
  split_ifs; reflexivity.
Qed.

Lemma update_generation8 e v b d m g : generation8 (update e v b d m g) = uint8 g.
Proof.
  destruct e. unfold update, update_upper, update_lower. entry_cbn.
  split_ifs; reflexivity.
Qed.

Lemma update_key32 e v b d m g : key32 (update e v b d m g) = key32 e.
Proof.
  destruct e. unfold update, update_upper, update_lower. entry_cbn.
  split_ifs; reflexivity.
Qed.

Lemma update_bound_bit e v b d m g i :
  Z.testbit (uint8 b) i = true -> Z.testbit (bound (update e v b d m g)) i = true.
Proof.
  intros Hb. unfold update. entry_cbn.
  destruct (Z.ltb_spec i 8) as [Hlt|Hge].
  - destruct (Z.ltb_spec i 0) as [Hneg|Hpos].
    + rewrite Z.testbit_neg_r in Hb by assumption. discriminate.
    + rewrite testbit_uint8, Z.lor_spec, Hb by lia. apply orb_true_r.
  - rewrite testbit_uint8_high in Hb by assumption. discriminate.
Qed.

Lemma update_invariant e v b d m g :
  pair_invariant e -> pair_invariant (update e v b d m g).
Proof.
  destruct e as [k mv bd gn vl dl vu du].
  unfold pair_invariant, update, update_upper, update_lower,
    value_none16, depth_none16.
  bits. intros [HU HL].
  split_ifs; bits; bool_close.
Qed.

Lemma update_wf e v b d m g : entry_wf e -> entry_wf (update e v b d m g).
Proof.
  intros [Hk Hm Hb Hg Hvl Hdl Hvu Hdu]. destruct e as [k mv bd gn vl dl vu du].
  unfold update, update_upper, update_lower. entry_cbn.
  split_ifs; constructor; entry_cbn;
    auto using uint8_range, uint16_range, uint32_range, int16_range.
Qed.

Lemma run_ops_invariant ops : forall e,
  pair_invariant e -> pair_invariant (run_ops e ops).
Proof.
  induction ops as [|op ops IH]; intros e He; [exact He|].
  cbn [run_ops fold_left]. apply IH.
  destruct op; cbn [apply_op]; auto using save_invariant, update_invariant.
Qed.


Ltac use_exact Hex :=
  repeat match goal with
  | E : (_ =? BOUND_EXACT) = true |- _ =>
      apply Z.eqb_eq in E; subst; destruct Hex as [? ?]
  end.

(** The three shapes of a merge, by the bits of the bound it carries. *)
Lemma update_merged e v b d m g :
  exact_has_both -> in_int16 v -> in_int16 d ->
  let e' := update e v b d m g in
  (Z.testbit b 0 = true -> Z.testbit b 1 = false -> upper_merged e e' v d) /\
  (Z.testbit b 1 = true -> Z.testbit b 0 = false -> lower_merged e e' v d) /\
  (Z.testbit b 0 = true -> Z.testbit b 1 = true -> both_merged e' v d).
Proof.
  intros Hex Hv Hd. destruct e as [k mv bd gn vl dl vu du].
  unfold upper_merged, lower_merged, both_merged, update, update_upper,
    update_lower, value_none16, depth_none16.
  cbv zeta. bits.
  rewrite !(int16_small v), !(int16_small d) by assumption.
  split_ifs; use_exact Hex; bits; bool_close.
Qed.

(** A merge that carries no bound writes the move and the generation only,
    up to the EXACT flag being dropped. *)
Lemma update_none_fields e v d m g :
  update e v BOUND_NONE d m g =
  mkTTEntry (key32 e) (uint16 m)
    (uint8 (Z.lor (if bound e =? BOUND_EXACT
                   then uint8 (Z.lor BOUND_UPPER BOUND_LOWER) else bound e)
                  (uint8 BOUND_NONE)))
    (uint8 g) (valueLower e) (depthLower e) (valueUpper e) (depthUpper e).
Proof.
  destruct e as [k mv bd gn vl dl vu du].
  unfold update, update_upper, update_lower. entry_cbn.
  change (truthy (Z.land BOUND_NONE BOUND_UPPER)) with false.
  change (truthy (Z.land BOUND_NONE BOUND_LOWER)) with false.
  destruct (bd =? BOUND_EXACT); reflexivity.
Qed.

(** *** The claims on records *)

(** C1 (as amended). For every record and every merge call whose value and
    depth fit in 16 bits: if the bound carries UPPER and not LOWER, the upper
    pair becomes the new (value, depth), and the LOWER bit is cleared with
    its pair reset to the sentinels exactly when the bit was set and the
    stored lower value strictly exceeds the new value, the lower pair and its
    bit being unchanged otherwise; symmetrically for a bound that carries
    LOWER and not UPPER; and a bound that carries both bits leaves both pairs
    equal to the new (value, depth) with both bits set. *)
Theorem update_merge_contract e v b d m g :
  exact_has_both -> in_int16 v -> in_int16 d ->
  let e' := update e v b d m g in
  (truthy (Z.land b BOUND_UPPER) = true ->
   truthy (Z.land b BOUND_LOWER) = false -> upper_merged e e' v d) /\
  (truthy (Z.land b BOUND_LOWER) = true ->
   truthy (Z.land b BOUND_UPPER) = false -> lower_merged e e' v d) /\
  (truthy (Z.land b BOUND_UPPER) = true ->
   truthy (Z.land b BOUND_LOWER) = true -> both_merged e' v d).
Proof.
  intros Hex Hv Hd. rewrite truthy_upper, truthy_lower.
  exact (update_merged e v b d m g Hex Hv Hd).
Qed.

(** C2 (as amended). From an empty record, initialising with
    (50, LOWER, 10, M1, 1) and then merging (30, UPPER, 8, M2, 2) gives a
    record with the UPPER bit only: the stored lower value 50 exceeds the new
    upper value 30, so the LOWER bit is cleared and the lower pair is reset
    to the sentinels; the upper pair is (30, 8), the move M2 and the
    generation 2. *)
Theorem save_lower_then_update_upper M1 M2 :
  in_uint16 M2 ->
  let e' := update (save zero_entry 4660 50 BOUND_LOWER 10 M1 1)
                   30 BOUND_UPPER 8 M2 2 in
  e' = mkTTEntry 4660 M2 BOUND_UPPER 2 value_none16 depth_none16 30 8 /\
  has_upper e' = true /\ has_lower e' = false /\
  value e' = value_none16 /\ depth e' = depth_none16 /\
  value_upper e' = 30 /\ depth_upper e' = 8 /\
  move e' = M2 /\ generation e' = 2.
Proof.
  intros HM. cbv zeta.
  assert (E : update (save zero_entry 4660 50 BOUND_LOWER 10 M1 1)
                     30 BOUND_UPPER 8 M2 2
              = mkTTEntry 4660 M2 BOUND_UPPER 2 value_none16 depth_none16 30 8).
  { rewrite save_fields.
    unfold update, update_upper, update_lower, value_none16, depth_none16.
    entry_cbn. rewrite (uint16_small M2) by assumption.
    change (uint8 BOUND_LOWER) with 2.
    generalize (int16 VALUE_NONE) (int16 DEPTH_NONE). intros vn dn.
    destruct (2 =? BOUND_EXACT); lazy; reflexivity. }
  rewrite E. repeat split.
Qed.

(** C3. The invariant "a pair whose bound bit is clear holds the sentinels"
    is established by initialize, preserved by merge, and therefore holds
    after any sequence of initialize and merge operations that follows an
    initialize or starts from a record satisfying it. *)
Theorem pair_invariant_maintained e k v b d m g ops :
  pair_invariant (save e k v b d m g) /\
  (pair_invariant e -> pair_invariant (update e v b d m g)) /\
  pair_invariant (run_ops (save e k v b d m g) ops) /\
  (pair_invariant e -> pair_invariant (run_ops e ops)).
Proof.
  split; [|split; [|split]].
  - apply save_invariant.
  - apply update_invariant.
  - apply run_ops_invariant, save_invariant.
  - apply run_ops_invariant.
Qed.

(** C4. Initialize overwrites the slot whatever it held: fingerprint, move,
    generation and bound flags are the arguments (the result does not depend
    on the prior content), a pair whose bit is in the
    bound is (value, depth), a pair whose bit is absent holds the sentinels;
    with bound EXACT both bits are set and both pairs are (value, depth). *)
Theorem save_overwrites e k v b d m g :
  in_uint32 k -> in_uint16 m -> in_uint8 g -> in_uint8 b ->
  in_int16 v -> in_int16 d ->
  let e' := save e k v b d m g in
  (forall e0, save e0 k v b d m g = e') /\
  key e' = k /\ move e' = m /\ generation e' = g /\ type e' = b /\
  (truthy (Z.land b BOUND_UPPER) = true ->
     value_upper e' = v /\ depth_upper e' = d) /\
  (truthy (Z.land b BOUND_UPPER) = false ->
     value_upper e' = value_none16 /\ depth_upper e' = depth_none16) /\
  (truthy (Z.land b BOUND_LOWER) = true ->
     value e' = v /\ depth e' = d) /\
  (truthy (Z.land b BOUND_LOWER) = false ->
     value e' = value_none16 /\ depth e' = depth_none16) /\
  (exact_has_both ->
     let x := save e k v BOUND_EXACT d m g in
     has_upper x = true /\ has_lower x = true /\
     value_upper x = v /\ depth_upper x = d /\ value x = v /\ depth x = d).
Proof.
  intros Hk Hm Hg Hb Hv Hd. cbv zeta.
  split; [intros e0; rewrite !save_fields; reflexivity|].
  rewrite !save_fields.
  unfold value_none16, depth_none16. bits.
  rewrite (uint32_small k), (uint16_small m), (uint8_small g), (uint8_small b)
    by assumption.
  repeat split; intros;
    repeat match goal with
    | Hx : exact_has_both |- _ => destruct Hx
    | Hx : Z.testbit _ _ = _ |- _ => rewrite Hx
    end; auto using int16_small.
Qed.

(** C5. After a merge the move and the generation are the arguments, and the
    bound flags contain every bit of the bound argument. *)
Theorem update_overwrites_move_generation e v b d m g :
  in_uint16 m -> in_uint8 g -> in_uint8 b ->
  let e' := update e v b d m g in
  move e' = m /\ generation e' = g /\ Z.land (type e') b = b.
Proof.
  intros Hm Hg Hb. cbv zeta. unfold move, generation, type.
  rewrite update_move16, update_generation8.
  rewrite (uint16_small m), (uint8_small g) by assumption.
  repeat split. apply Z.bits_inj'. intros i Hi.
  rewrite Z.land_spec. destruct (Z.testbit b i) eqn:E.
  - rewrite andb_true_r. apply update_bound_bit.
    rewrite uint8_small; assumption.
  - apply andb_false_r.
Qed.

(** C9 (as amended). A merge that carries bound NONE leaves the fingerprint
    and the four value/depth fields exactly as they were and writes the move
    and the generation; of the bound flags it keeps the UPPER and LOWER bits,
    and it leaves the whole flag word as it was unless the word equals
    BOUND_EXACT, in which case the word becomes UPPER|LOWER (the EXACT flag
    is dropped).  When EXACT is the two bits and nothing else the flags are
    thus unchanged, and the merge changes the move and the generation only. *)
Theorem update_none_frame e v d m g :
  let e' := update e v BOUND_NONE d m g in
  key32 e' = key32 e /\
  valueUpper e' = valueUpper e /\ depthUpper e' = depthUpper e /\
  valueLower e' = valueLower e /\ depthLower e' = depthLower e /\
  move16 e' = uint16 m /\ generation8 e' = uint8 g /\
  (exact_has_both ->
     has_upper e' = has_upper e /\ has_lower e' = has_lower e) /\
  (in_uint8 (bound e) ->
     (bound e <> BOUND_EXACT -> bound e' = bound e) /\
     (bound e = BOUND_EXACT -> bound e' = Z.lor BOUND_UPPER BOUND_LOWER) /\
     (exact_is_both ->
        e' = set_generation8 (set_move16 e (uint16 m)) (uint8 g))).
Proof.
  cbv zeta. rewrite update_none_fields. entry_cbn.
  change (uint8 BOUND_NONE) with 0. rewrite Z.lor_0_r.
  change (uint8 (Z.lor BOUND_UPPER BOUND_LOWER)) with (Z.lor BOUND_UPPER BOUND_LOWER).
  do 7 (split; [reflexivity|]). split.
  - intros [Hex0 Hex1]. unfold has_upper, has_lower. entry_cbn.
    rewrite !truthy_upper, !truthy_lower, testbit_uint8_0, testbit_uint8_1.
    destruct (Z.eqb_spec (bound e) BOUND_EXACT) as [E|_]; [|split; reflexivity].
    rewrite E, Hex0, Hex1. split; reflexivity.
  - intros Hb. split; [|split].
    + intros Hne. destruct (Z.eqb_spec (bound e) BOUND_EXACT) as [E|_];
        [contradiction | apply uint8_small, Hb].
    + intros E. rewrite E, Z.eqb_refl. reflexivity.
    + intros Hex. unfold exact_is_both in Hex.
      destruct (Z.eqb_spec (bound e) BOUND_EXACT) as [E|_].
      * destruct e. entry_cbn. cbv [set_generation8 set_move16]. entry_cbn.
        rewrite E, Hex. reflexivity.
      * rewrite (uint8_small _ Hb). destruct e. reflexivity.
Qed.

End EntryFacts.

(** ** The table *)

Section TableFacts.

(** *** Addressing *)

Lemma size_t_pow2_pred n : 0 <= n < 64 -> size_t (2 ^ n - 1) = Z.ones n.
Proof.
  intros Hn. unfold size_t. rewrite Z.ones_equiv, <- Z.sub_1_r.
  apply Z.mod_small.
  assert (0 < 2 ^ n) by (apply Z.pow_pos_nonneg; lia).
  assert (2 ^ n <= 2 ^ 63) by (apply Z.pow_le_mono_r; lia).
  lia.
Qed.

Lemma uint32_mod_pow2 x n :
  0 <= n -> uint32 x mod 2 ^ n = x mod 2 ^ Z.min n 32.
Proof.
  intros Hn. unfold uint32.
  destruct (Z.le_gt_cases n 32) as [Hle|Hgt].
  - rewrite Z.min_l by assumption.
    apply Z.mod_mod_divide.
    exists (2 ^ (32 - n)). rewrite <- Z.pow_add_r by lia. f_equal. lia.
  - rewrite Z.min_r by lia.
    apply Z.mod_small.
    pose proof (Z.mod_pos_bound x (2 ^ 32) ltac:(lia)).
    assert (2 ^ 32 <= 2 ^ n) by (apply Z.pow_le_mono_r; lia).
    lia.
Qed.

(** The width of [size_t] does not matter once it has 32 bits: the key has
    been cut to 32 bits before the mask is applied. *)
Lemma cluster_index_any_width tt posKey w :
  32 <= w ->
  TT.cluster_index tt posKey
  = Z.land (uint32 posKey) ((TT.size tt - 1) mod 2 ^ w).
Proof.
  intros Hw. unfold TT.cluster_index, size_t, uint32.
  apply Z.bits_inj'. intros i Hi. rewrite !Z.land_spec.
  destruct (Z.ltb_spec i 32) as [Hlt|Hge].
  - rewrite !(Z.mod_pow2_bits_low (TT.size tt - 1)) by lia. reflexivity.
  - rewrite Z.mod_pow2_bits_high by lia. reflexivity.
Qed.

Lemma cluster_index_pow2 tt posKey n :
  0 <= n < 64 -> TT.size tt = 2 ^ n ->
  TT.cluster_index tt posKey = posKey mod 2 ^ Z.min n 32.
Proof.
  intros Hn Hs. unfold TT.cluster_index.
  rewrite Hs, size_t_pow2_pred, Z.land_ones by lia.
  apply uint32_mod_pow2. lia.
Qed.

Lemma cluster_index_uint32 tt posKey :
  TT.cluster_index tt posKey = TT.cluster_index tt (uint32 posKey).
Proof.
  unfold TT.cluster_index. f_equal. unfold uint32.
  symmetry. apply Z.mod_mod. lia.
Qed.

Lemma cluster_index_below_2_32 tt posKey :
  0 <= TT.cluster_index tt posKey < 2 ^ 32.
Proof.
  unfold TT.cluster_index, uint32.
  rewrite <- (Z.land_ones posKey 32) by lia.
  rewrite <- Z.land_assoc, (Z.land_comm (Z.ones 32)), Z.land_assoc.
  rewrite Z.land_ones by lia.
  apply Z.mod_pos_bound. lia.
Qed.

(** *** Pointers *)

Lemma deref_write tt p f e :
  TT.deref tt p = Some e -> TT.deref (TT.write tt p f) p = Some (f e).
Proof.
  unfold TT.deref, TT.write. cbn [TT.entries TT.set_entries].
  rewrite list_lookup_alter_eq.
  destruct (TT.entries tt !! cluster_of p) as [c|]; [|discriminate].
  cbn. intros He. rewrite list_lookup_alter_eq, He. reflexivity.
Qed.

Lemma deref_write_other tt p q f :
  p <> q -> TT.deref (TT.write tt p f) q = TT.deref tt q.
Proof.
  intros Hne. unfold TT.deref, TT.write. cbn [TT.entries TT.set_entries].
  destruct (decide (cluster_of p = cluster_of q)) as [Hc|Hc].
  - rewrite <- Hc, list_lookup_alter_eq.
    destruct (TT.entries tt !! cluster_of p) as [c|]; [|reflexivity].
    cbn. apply list_lookup_alter_ne.
    intros Hs. apply Hne. destruct p, q. cbn in *. congruence.
  - rewrite list_lookup_alter_ne by assumption. reflexivity.
Qed.

Lemma gen_distance_set_generation g e :
  gen_distance g (set_generation e g) = 0.
Proof.
  unfold gen_distance, set_generation, generation, uint8.
  destruct e. cbn [generation8 set_generation8].
  rewrite Zminus_mod_idemp_r, Z.sub_diag. reflexivity.
Qed.

(** *** The claims on the table *)

(** C6. Touching a record sets its generation stamp to [g] and leaves the
    fingerprint, the move, the bound flags and both value/depth pairs as
    they were; the generation distance of the record from the epoch it was
    touched with, and from the table's current epoch after [refresh], is 0;
    [refresh] leaves every other record of the table as it was. *)
Theorem set_generation_only_stamp e g :
  in_uint8 g ->
  let e' := set_generation e g in
  generation e' = g /\
  key32 e' = key32 e /\ move16 e' = move16 e /\ bound e' = bound e /\
  valueUpper e' = valueUpper e /\ depthUpper e' = depthUpper e /\
  valueLower e' = valueLower e /\ depthLower e' = depthLower e /\
  gen_distance g e' = 0 /\
  forall tt p,
    TT.deref tt p = Some e ->
    TT.deref (TT.refresh tt p) p = Some (set_generation e (TT.generation tt)) /\
    gen_distance (TT.generation tt) (set_generation e (TT.generation tt)) = 0 /\
    (forall q, p <> q -> TT.deref (TT.refresh tt p) q = TT.deref tt q).
Proof.
  intros Hg. cbv zeta. split; [|repeat split].
  - unfold set_generation, generation. cbn. apply uint8_small, Hg.
  - apply gen_distance_set_generation.
  - unfold TT.refresh.
    apply (deref_write tt p (fun x => set_generation x (TT.generation tt))).
    assumption.
  - apply gen_distance_set_generation.
  - intros q Hq. unfold TT.refresh. apply deref_write_other, Hq.
Qed.

(** C7. For a table of [2 ^ n] clusters the cluster index is the low 32
    bits of the key masked with [size - 1], that is the key's low
    [min n 32] bits; it lies inside the table, and it depends on the key and
    the size only: every table of the same size addresses the key alike. *)
Theorem first_entry_masks_low_bits tt posKey n :
  0 <= n < 64 -> TT.size tt = 2 ^ n ->
  TT.cluster_index tt posKey = Z.land (uint32 posKey) (TT.size tt - 1) /\
  TT.cluster_index tt posKey = posKey mod 2 ^ Z.min n 32 /\
  (n <= 32 -> TT.cluster_index tt posKey = Z.land posKey (TT.size tt - 1)) /\
  0 <= TT.cluster_index tt posKey < TT.size tt /\
  TT.first_entry tt posKey
    = mkTTEntryPtr (Z.to_nat (posKey mod 2 ^ Z.min n 32)) 0 /\
  forall tt', TT.size tt' = TT.size tt ->
    TT.first_entry tt' posKey = TT.first_entry tt posKey.
Proof.
  intros Hn Hs.
  pose proof (cluster_index_pow2 tt posKey n Hn Hs) as Hidx.
  split; [|split; [|split; [|split; [|split]]]].
  - unfold TT.cluster_index. rewrite Hs, size_t_pow2_pred by assumption.
    rewrite Z.ones_equiv, <- Z.sub_1_r. reflexivity.
  - exact Hidx.
  - intros Hle. rewrite Hidx, Hs, Z.min_l by assumption.
    rewrite <- Z.land_ones, Z.ones_equiv, <- Z.sub_1_r by lia. reflexivity.
  - rewrite Hidx, Hs.
    pose proof (Z.mod_pos_bound posKey (2 ^ Z.min n 32)
                  ltac:(apply Z.pow_pos_nonneg; lia)).
    assert (2 ^ Z.min n 32 <= 2 ^ n) by (apply Z.pow_le_mono_r; lia).
    lia.
  - unfold TT.first_entry. rewrite Hidx. reflexivity.
  - intros tt' Hs'. unfold TT.first_entry, TT.cluster_index. rewrite Hs'. reflexivity.
Qed.

(** C10. Only the low 32 bits of the key take part in addressing: whatever
    the table size, two keys that agree modulo [2 ^ 32] address the same
    cluster, and the index never reaches [2 ^ 32]. *)
Theorem first_entry_low_32_bits tt k1 k2 :
  k1 mod 2 ^ 32 = k2 mod 2 ^ 32 ->
  TT.cluster_index tt k1 = TT.cluster_index tt k2 /\
  TT.first_entry tt k1 = TT.first_entry tt k2 /\
  0 <= TT.cluster_index tt k1 < 2 ^ 32.
Proof.
  intros Hk.
  assert (E : TT.cluster_index tt k1 = TT.cluster_index tt k2).
  { rewrite (cluster_index_uint32 tt k1), (cluster_index_uint32 tt k2).
    unfold uint32. rewrite Hk. reflexivity. }
  split; [exact E|]. split.
  - unfold TT.first_entry. rewrite E. reflexivity.
  - apply cluster_index_below_2_32.
Qed.

End TableFacts.

(** ** Replacement *)

Section ReplacementFacts.

Context `{TypesH}.
Variable GenWeight : Z.
Variable current : Z.

Local Abbreviation score := (eviction_score GenWeight current).
Local Abbreviation better := (more_evictable GenWeight current).
Local Abbreviation weaker := (no_better GenWeight current).

Lemma more_evictable_false a b : better a b = false <-> weaker a b.
Proof.
  unfold more_evictable, no_better.
  destruct (Z.ltb_spec (score b) (score a)); cbn [orb].
  - split; [discriminate | lia].
  - destruct (Z.eqb_spec (score a) (score b)); cbn [andb].
    + destruct (Z.ltb_spec (depth a) (depth b)); split;
        try discriminate; try reflexivity; lia.
    + split; [lia | reflexivity].
Qed.

Lemma more_evictable_true a b : better a b = true -> weaker b a.
Proof.
  unfold more_evictable, no_better.
  destruct (Z.ltb_spec (score b) (score a)); cbn [orb]; [lia|].
  destruct (Z.eqb_spec (score a) (score b)); cbn [andb]; [|discriminate].
  destruct (Z.ltb_spec (depth a) (depth b)); [lia | discriminate].
Qed.

Lemma no_better_refl a : weaker a a.
Proof. unfold no_better. lia. Qed.

Lemma no_better_trans a b c : weaker a b -> weaker b c -> weaker a c.
Proof. unfold no_better. lia. Qed.

(** The scan returns either the candidate it started with or a record of
    the list, and nothing it has seen is a better victim. *)
Lemma select_victim_spec l : forall best i,
  let r := select_victim GenWeight current best i l in
  weaker (snd best) (snd r) /\
  Forall (fun e => weaker e (snd r)) l /\
  (r = best \/ exists j, l !! j = Some (snd r) /\ fst r = (i + j)%nat).
Proof.
  induction l as [|e l IH]; intros best i; cbn [select_victim].
  - split; [apply no_better_refl|]. split; [constructor | left; reflexivity].
  - destruct (better e (snd best)) eqn:Hb.
    + specialize (IH (i, e) (S i)). cbv zeta in IH.
      destruct IH as (Hbest & Hall & Hwhere). cbn [snd] in Hbest.
      apply more_evictable_true in Hb.
      split; [eapply no_better_trans; eassumption|].
      split; [constructor; assumption|].
      right. destruct Hwhere as [Heq | (j & Hj & Hi)].
      * exists 0%nat. rewrite Heq. cbn. split; [reflexivity | lia].
      * exists (S j). cbn. split; [assumption | lia].
    + specialize (IH best (S i)). cbv zeta in IH.
      destruct IH as (Hbest & Hall & Hwhere).
      apply more_evictable_false in Hb.
      split; [assumption|].
      split; [constructor; [eapply no_better_trans; eassumption | assumption]|].
      destruct Hwhere as [Heq | (j & Hj & Hi)]; [left; assumption|].
      right. exists (S j). cbn. split; [assumption | lia].
Qed.

Lemma victim_Some c i e :
  victim GenWeight current c = Some (i, e) ->
  c !! i = Some e /\ forall e', e' ∈ c -> weaker e' e.
Proof.
  destruct c as [|e0 l]; [discriminate|]. cbn [victim]. intros [= Hr].
  pose proof (select_victim_spec l (0%nat, e0) 1%nat) as Hs.
  cbv zeta in Hs. rewrite Hr in Hs. cbn [fst snd] in Hs.
  destruct Hs as (Hbest & Hall & Hwhere). split.
  - destruct Hwhere as [[= -> ->] | (j & Hj & ->)]; [reflexivity | exact Hj].
  - intros e' [->|Hin]%elem_of_cons; [assumption|].
    rewrite Forall_forall in Hall. auto.
Qed.

Lemma victim_None c : victim GenWeight current c = None -> c = [].
Proof. destruct c; [reflexivity | discriminate]. Qed.

(** A cluster is never empty, so a victim always exists. *)
Lemma cluster_wf_nonempty c : cluster_wf c -> data c <> [].
Proof.
  unfold cluster_wf, ClusterSize. intros Hlen Hnil.
  rewrite Hnil in Hlen. discriminate.
Qed.

(** With a weight above the span of 16-bit depths, an older record always
    scores higher, and among records of one age a shallower one does. *)
Lemma eviction_score_order e1 e2 :
  2 ^ 16 <= GenWeight -> in_int16 (depth e1) -> in_int16 (depth e2) ->
  (gen_distance current e1 < gen_distance current e2 -> score e1 < score e2) /\
  (gen_distance current e1 = gen_distance current e2 ->
   depth e2 < depth e1 -> score e1 < score e2).
Proof.
  unfold eviction_score, in_int16. intros HW H1 H2. split.
  - intros Hlt.
    assert (GenWeight * gen_distance current e1 + GenWeight
            <= GenWeight * gen_distance current e2) by nia.
    lia.
  - intros -> Hd. lia.
Qed.

Lemma list_alter_is_insert {A} (f : A -> A) (l : list A) i x :
  l !! i = Some x -> alter f i l = <[i := f x]> l.
Proof.
  intros Hx. apply list_eq. intros j.
  destruct (decide (i = j)) as [<-|Hne].
  - rewrite list_lookup_alter_eq, Hx, list_lookup_insert_eq;
      [reflexivity | eapply lookup_lt_Some; eassumption].
  - rewrite list_lookup_alter_ne, list_lookup_insert_ne by assumption.
    reflexivity.
Qed.

End ReplacementFacts.

Section StoreFacts.

Context `{TypesH}.
Variable GenWeight : Z.

(** C8. [store] rewrites the cluster the key addresses, and nothing else.
    In that cluster: a record whose fingerprint matches the key is merged in
    place; failing that, a never-used record (fingerprint zero) is
    initialised; failing that, the record that no other record of the
    cluster beats as a victim (none has a higher eviction score, and none of
    equal score has a lower depth) is overwritten by initialize.  The score
    puts age before depth: with a generation weight above the span of the
    depths an older record scores higher whatever the depths, and at equal
    age a shallower record scores higher. *)
Theorem store_priority tt posKey v b d m c :
  TT.entries tt !! cluster_of (TT.first_entry tt posKey) = Some c ->
  let k32 := uint32 posKey in
  let g := TT.generation tt in
  let c' := store_cluster GenWeight g k32 v b d m (data c) in
  TT.entries (TT.store GenWeight tt posKey v b d m)
    = <[cluster_of (TT.first_entry tt posKey) := mkTTCluster c']> (TT.entries tt) /\
  ((exists e, e ∈ data c /\ key e = k32) ->
   exists i e, data c !! i = Some e /\ key e = k32 /\
               c' = <[i := update e v b d m g]> (data c)) /\
  ((forall e, e ∈ data c -> key e <> k32) ->
   (exists e, e ∈ data c /\ key e = 0) ->
   exists i e, data c !! i = Some e /\ key e = 0 /\
               c' = <[i := save e k32 v b d m g]> (data c)) /\
  ((forall e, e ∈ data c -> key e <> k32 /\ key e <> 0) ->
   data c <> [] ->
   exists i e, data c !! i = Some e /\
               (forall e', e' ∈ data c -> no_better GenWeight g e' e) /\
               c' = <[i := save e k32 v b d m g]> (data c)) /\
  (2 ^ 16 <= GenWeight ->
   forall e1 e2, entry_wf e1 -> entry_wf e2 ->
     (gen_distance g e1 < gen_distance g e2 ->
      eviction_score GenWeight g e1 < eviction_score GenWeight g e2) /\
     (gen_distance g e1 = gen_distance g e2 -> depth e2 < depth e1 ->
      eviction_score GenWeight g e1 < eviction_score GenWeight g e2)).
Proof.
  intros Hc. cbv zeta.
  set (k32 := uint32 posKey). set (g := TT.generation tt).
  split; [|split; [|split; [|split]]].
  - unfold TT.store. cbn [TT.entries TT.set_entries].
    rewrite (list_alter_is_insert _ _ _ _ Hc). reflexivity.
  - intros (e0 & Hin & Hkey).
    destruct (list_find_elem_of (fun e => key e = k32) (data c) e0 Hin Hkey)
      as [[i e] Hfind].
    pose proof Hfind as (Hi & He & _)%list_find_Some.
    exists i, e. unfold store_cluster. rewrite Hfind. auto.
  - intros Hno (e0 & Hin & Hkey).
    assert (Hnone : list_find (fun e => key e = k32) (data c) = None).
    { apply list_find_None, Forall_forall. exact Hno. }
    destruct (list_find_elem_of (fun e => key e = 0) (data c) e0 Hin Hkey)
      as [[i e] Hfind].
    pose proof Hfind as (Hi & He & _)%list_find_Some.
    exists i, e. unfold store_cluster. rewrite Hnone, Hfind. auto.
  - intros Hno Hne.
    assert (Hnone : list_find (fun e => key e = k32) (data c) = None).
    { apply list_find_None, Forall_forall. intros e He. apply Hno, He. }
    assert (Hfull : list_find (fun e => key e = 0) (data c) = None).
    { apply list_find_None, Forall_forall. intros e He. apply Hno, He. }
    unfold store_cluster. rewrite Hnone, Hfull.
    destruct (victim GenWeight g (data c)) as [[i e]|] eqn:Hv.
    + apply victim_Some in Hv as [Hi Hbest]. exists i, e. auto.
    + apply victim_None in Hv. contradiction.
  - intros HW e1 e2 H1 H2.
    apply eviction_score_order; [assumption | apply H1 | apply H2].
Qed.

End StoreFacts.

(** ** The properties at concrete inputs *)

Ltac range := unfold in_uint8, in_uint16, in_uint32, in_int16; lia.

Lemma lower_only_saved :
  @save sample_types zero_entry 4660 50 BOUND_LOWER 10 1 1 = lower_only.
Proof. vm_compute. reflexivity. Qed.

Lemma lower_only_wf : entry_wf lower_only.
Proof. constructor; cbn; range. Defined.

Lemma lower_only_invariant : @pair_invariant sample_types lower_only.
Proof.
  split; intros Hbit.
  - split; reflexivity.
  - vm_compute in Hbit. discriminate.
Defined.

Lemma sample_exact_has_both : @exact_has_both sample_types.
Proof. split; reflexivity. Defined.

Lemma sample_exact_is_both : @exact_is_both sample_types.
Proof. reflexivity. Defined.

(** C1, the claim as stated fails: merging a bound that carries both bits
    into a record whose lower value 50 exceeds the new value 30 does not
    leave the LOWER bit cleared, since the same call stores the new lower
    pair and sets the bit again. *)
Lemma update_both_bits_keeps_lower :
  let b := Z.lor BOUND_UPPER BOUND_LOWER in
  let e' := @update sample_types lower_only 30 b 8 2 2 in
  truthy (Z.land b BOUND_UPPER) = true /\
  has_lower lower_only = true /\ valueLower lower_only > 30 /\
  has_lower e' = true /\ valueLower e' = 30 /\ depthLower e' = 8 /\
  ~ @upper_merged sample_types lower_only e' 30 8.
Proof.
  cbv zeta. repeat (split; [reflexivity|]).
  intros (_ & _ & Hdrop & _).
  destruct Hdrop as [Hbit _]; [split; reflexivity|].
  vm_compute in Hbit. discriminate.
Qed.

Lemma update_merge_contract_witness :
  @exact_has_both sample_types /\ in_int16 30 /\ in_int16 8 /\
  @upper_merged sample_types lower_only
    (@update sample_types lower_only 30 BOUND_UPPER 8 2 2) 30 8.
Proof.
  assert (Hv : in_int16 30) by range.
  assert (Hd : in_int16 8) by range.
  split; [exact sample_exact_has_both|].
  split; [exact Hv|]. split; [exact Hd|].
  apply (@update_merge_contract sample_types lower_only 30 BOUND_UPPER 8 2 2
           sample_exact_has_both Hv Hd); reflexivity.
Defined.

(** C2, the claim as stated fails: after the two calls the LOWER bit is
    clear and the lower pair no longer holds (50, 10). *)
Lemma save_lower_then_update_upper_loses_lower :
  let e' := @update sample_types
              (@save sample_types zero_entry 4660 50 BOUND_LOWER 10 1 1)
              30 BOUND_UPPER 8 2 2 in
  has_lower e' = false /\ valueLower e' = 30002 /\ depthLower e' = -254 /\
  ~ (has_upper e' = true /\ has_lower e' = true /\
     valueLower e' = 50 /\ depthLower e' = 10 /\
     valueUpper e' = 30 /\ depthUpper e' = 8 /\
     move e' = 2 /\ generation e' = 2).
Proof.
  cbv zeta. repeat (split; [reflexivity|]).
  intros (_ & Hbit & _). vm_compute in Hbit. discriminate.
Qed.

Lemma save_lower_then_update_upper_witness :
  in_uint16 2 /\
  @update sample_types (@save sample_types zero_entry 4660 50 BOUND_LOWER 10 1 1)
    30 BOUND_UPPER 8 2 2
  = mkTTEntry 4660 2 BOUND_UPPER 2 30002 (-254) 30 8.
Proof.
  assert (HM : in_uint16 2) by range.
  split; [exact HM|].
  apply (@save_lower_then_update_upper sample_types 1 2 HM).
Defined.

Lemma pair_invariant_maintained_witness :
  @pair_invariant sample_types lower_only /\
  @pair_invariant sample_types
    (@update sample_types lower_only 30 BOUND_UPPER 8 2 2) /\
  @pair_invariant sample_types
    (@run_ops sample_types lower_only
       [OpUpdate 30 BOUND_UPPER 8 2 2; OpSave 7 (-5) BOUND_NONE 3 4 3;
        OpUpdate 60 BOUND_LOWER 12 5 3]).
Proof.
  split; [exact lower_only_invariant|].
  destruct (@pair_invariant_maintained sample_types lower_only 0
              30 BOUND_UPPER 8 2 2
              [OpUpdate 30 BOUND_UPPER 8 2 2; OpSave 7 (-5) BOUND_NONE 3 4 3;
               OpUpdate 60 BOUND_LOWER 12 5 3])
    as (_ & Hupdate & _ & Hrun).
  split; [apply Hupdate | apply Hrun]; exact lower_only_invariant.
Defined.

Lemma save_overwrites_witness :
  in_uint32 4660 /\ in_uint16 7 /\ in_uint8 1 /\ in_uint8 3 /\
  in_int16 50 /\ in_int16 10 /\
  let e' := @save sample_types lower_only 4660 50 3 10 7 1 in
  key e' = 4660 /\ move e' = 7 /\ generation e' = 1 /\ type e' = 3.
Proof.
  assert (Hk : in_uint32 4660) by range.
  assert (Hm : in_uint16 7) by range.
  assert (Hg : in_uint8 1) by range.
  assert (Hb : in_uint8 3) by range.
  assert (Hv : in_int16 50) by range.
  assert (Hd : in_int16 10) by range.
  repeat (split; [assumption|]).
  destruct (@save_overwrites sample_types lower_only 4660 50 3 10 7 1
              Hk Hm Hg Hb Hv Hd) as (_ & E1 & E2 & E3 & E4 & _).
  cbv zeta. auto.
Defined.

Lemma update_overwrites_move_generation_witness :
  in_uint16 7 /\ in_uint8 9 /\ in_uint8 BOUND_LOWER /\
  let e' := @update sample_types lower_only 60 BOUND_LOWER 12 7 9 in
  move e' = 7 /\ generation e' = 9 /\ Z.land (type e') BOUND_LOWER = BOUND_LOWER.
Proof.
  assert (Hm : in_uint16 7) by range.
  assert (Hg : in_uint8 9) by range.
  assert (Hb : in_uint8 BOUND_LOWER) by (unfold BOUND_LOWER; range).
  repeat (split; [assumption|]).
  exact (@update_overwrites_move_generation sample_types lower_only
           60 BOUND_LOWER 12 7 9 Hm Hg Hb).
Defined.

Lemma update_none_frame_witness :
  in_uint8 (bound lower_only) /\
  bound lower_only <> @BOUND_EXACT sample_types /\
  bound (@update sample_types lower_only 60 BOUND_NONE 12 7 9)
  = bound lower_only.
Proof.
  assert (Hb : in_uint8 (bound lower_only)) by (cbn; range).
  assert (Hne : bound lower_only <> @BOUND_EXACT sample_types)
    by (cbn; discriminate).
  split; [exact Hb|]. split; [exact Hne|].
  destruct (@update_none_frame sample_types lower_only 60 12 7 9)
    as (_ & _ & _ & _ & _ & _ & _ & _ & Hflags).
  destruct (Hflags Hb) as (Hkeep & _). exact (Hkeep Hne).
Defined.

(** C9, the claim as stated fails: were EXACT to carry a flag of its own, as
    the line that drops it suggests, a record initialised with bound EXACT
    would hold the flags 7, and a merge with bound NONE would leave 3. *)
Lemma update_none_drops_exact_flag :
  let e := @save flagged_types zero_entry 4660 50 (@BOUND_EXACT flagged_types)
             10 1 1 in
  let e' := @update flagged_types e 60 BOUND_NONE 12 7 9 in
  entry_wf e /\ bound e = 7 /\ bound e' = 3 /\ bound e' <> bound e.
Proof.
  cbv zeta. split; [apply save_wf|].
  split; [reflexivity|]. split; [reflexivity|].
  vm_compute. discriminate.
Qed.

Lemma set_generation_only_stamp_witness :
  in_uint8 5 /\
  generation (set_generation lower_only 5) = 5 /\
  gen_distance 5 (set_generation lower_only 5) = 0.
Proof.
  assert (Hg : in_uint8 5) by range.
  split; [exact Hg|].
  destruct (set_generation_only_stamp lower_only 5 Hg) as (E & _ & _ & _ & _ & _ & _ & _ & D & _).
  auto.
Defined.

Lemma first_entry_masks_low_bits_witness :
  0 <= 10 < 64 /\ TT.size (TT.mk 1024 [] 0) = 2 ^ 10 /\
  TT.cluster_index (TT.mk 1024 [] 0) 81985529216486895
  = Z.land (uint32 81985529216486895) (1024 - 1).
Proof.
  assert (Hn : 0 <= 10 < 64) by lia.
  assert (Hs : TT.size (TT.mk 1024 [] 0) = 2 ^ 10) by reflexivity.
  split; [exact Hn|]. split; [exact Hs|].
  destruct (first_entry_masks_low_bits (TT.mk 1024 [] 0) 81985529216486895
              10 Hn Hs) as (E & _).
  exact E.
Defined.

Lemma first_entry_low_32_bits_witness :
  5 mod 2 ^ 32 = (2 ^ 32 + 5) mod 2 ^ 32 /\
  TT.cluster_index (TT.mk (2 ^ 33) [] 0) 5
  = TT.cluster_index (TT.mk (2 ^ 33) [] 0) (2 ^ 32 + 5).
Proof.
  assert (Hk : 5 mod 2 ^ 32 = (2 ^ 32 + 5) mod 2 ^ 32) by reflexivity.
  split; [exact Hk|].
  destruct (first_entry_low_32_bits (TT.mk (2 ^ 33) [] 0) 5 (2 ^ 32 + 5) Hk)
    as (E & _).
  exact E.
Defined.

Lemma store_priority_witness :
  TT.entries small_table !! cluster_of (TT.first_entry small_table 153)
    = Some full_cluster /\
  TT.entries (@TT.store sample_types (2 ^ 16) small_table 153 33 BOUND_UPPER 6 8)
  = <[cluster_of (TT.first_entry small_table 153) :=
        mkTTCluster (@store_cluster sample_types (2 ^ 16) 5 (uint32 153)
                       33 BOUND_UPPER 6 8 (data full_cluster))]>
      (TT.entries small_table).
Proof.
  assert (Hc : TT.entries small_table !! cluster_of (TT.first_entry small_table 153)
               = Some full_cluster) by reflexivity.
  split; [exact Hc|].
  destruct (@store_priority sample_types (2 ^ 16) small_table 153 33
              BOUND_UPPER 6 8 full_cluster Hc) as (E & _).
  exact E.
Defined.

(** On that table an unmatched key evicts the record of generation 3 and
    depth -254: two epochs old, and the shallower of the two oldest. *)
Example store_evicts_oldest_shallowest :
  TT.entries (@TT.store sample_types (2 ^ 16) small_table 153 33 BOUND_UPPER 6 8)
  = [ mkTTCluster
        [ mkTTEntry 11 1 2 5 40 9 30002 (-254);
          mkTTEntry 153 8 1 5 30002 (-254) 33 6;
          mkTTEntry 13 3 3 3 25 4 25 4;
          mkTTEntry 14 4 2 4 70 2 30002 (-254) ] ].
Proof. vm_compute. reflexivity. Qed.

(** * Further properties of the code *)

(** ** Records *)

Section MoreEntryFacts.

Context `{TypesH}.

Lemma testbit_uint8_any x i :
  0 <= i -> Z.testbit (uint8 x) i = (i <? 8) && Z.testbit x i.
Proof.
  intros Hi. destruct (Z.ltb_spec i 8).
  - rewrite testbit_uint8 by lia. reflexivity.
  - rewrite testbit_uint8_high by lia. reflexivity.
Qed.

Lemma uint8_idem x : uint8 (uint8 x) = uint8 x.
Proof. unfold uint8. apply Z.mod_mod. lia. Qed.

Lemma lor_ones_2_absorb x :
  Z.testbit x 0 = true -> Z.testbit x 1 = true -> Z.lor (Z.ones 2) x = x.
Proof.
  intros H0 H1. apply Z.bits_inj'. intros i Hi. rewrite Z.lor_spec.
  destruct (Z.ltb_spec i 2) as [Hlt|Hge].
  - assert (Hi01 : i = 0 \/ i = 1) by lia.
    destruct Hi01 as [-> | ->]; rewrite ?H0, ?H1; apply orb_true_r.
  - rewrite Z.ones_spec_high by lia. reflexivity.
Qed.

(** Equality of flag words, bit by bit. *)
Ltac flag_eq :=
  apply Z.bits_inj'; intros ?i ?Hi;
  repeat (rewrite ?testbit_uint8_any, ?Z.lor_spec, ?Z.lxor_spec by lia);
  repeat match goal with
  | |- context [Z.testbit ?x ?i] => destruct (Z.testbit x i)
  | |- context [?i <? 8] => destruct (i <? 8)
  end; reflexivity.

Lemma entry_ext e1 e2 :
  key32 e1 = key32 e2 -> move16 e1 = move16 e2 -> bound e1 = bound e2 ->
  generation8 e1 = generation8 e2 ->
  valueLower e1 = valueLower e2 -> depthLower e1 = depthLower e2 ->
  valueUpper e1 = valueUpper e2 -> depthUpper e1 = depthUpper e2 ->
  e1 = e2.
Proof. destruct e1, e2. cbn. intros. subst. reflexivity. Qed.

(** The hypotheses on the conditions of the code contradict each other. *)
Ltac contra :=
  exfalso; bits;
  repeat (progress
            rewrite ?testbit_uint8_0, ?testbit_uint8_1, ?Z.lor_spec, ?Z.lxor_spec
              in *);
  change (Z.testbit BOUND_UPPER 0) with true in *;
  change (Z.testbit BOUND_UPPER 1) with false in *;
  change (Z.testbit BOUND_LOWER 0) with false in *;
  change (Z.testbit BOUND_LOWER 1) with true in *;
  repeat match goal with
  | _ : context [Z.testbit ?x ?i] |- _ =>
      lazymatch x with
      | context [Z.lor] => fail
      | context [Z.lxor] => fail
      | context [uint8] => fail
      | _ => destruct (Z.testbit x i)
      end
  end;
  cbn [andb orb xorb negb] in *;
  first [discriminate | congruence | lia].

(** Case analysis that drops the cases the earlier conditions exclude. *)
Ltac split_prune :=
  repeat match goal with
  | |- context [if ?c then _ else _] =>
      lazymatch c with
      | context [if _ then _ else _] => fail
      | _ => destruct c eqn:?; entry_cbn; try (contra; fail)
      end
  end.

(** With EXACT being the two bits, dropping the EXACT flag changes nothing. *)
Lemma update_without_drop e v b d m g :
  exact_is_both ->
  update e v b d m g =
  let e1 := set_generation8 (set_move16 e (uint16 m)) (uint8 g) in
  let e2 := update_lower (update_upper e1 v b d) v b d in
  set_bound e2 (uint8 (Z.lor (bound e2) (uint8 b))).
Proof.
  intros Hex. unfold exact_is_both in Hex. unfold update. cbv zeta.
  destruct (Z.eqb_spec (bound (set_generation8 (set_move16 e (uint16 m)) (uint8 g)))
                       BOUND_EXACT) as [E|_]; [|reflexivity].
  replace (set_bound (set_generation8 (set_move16 e (uint16 m)) (uint8 g))
             (uint8 (Z.lor BOUND_UPPER BOUND_LOWER)))
    with (set_generation8 (set_move16 e (uint16 m)) (uint8 g)); [reflexivity|].
  destruct e. entry_cbn. unfold set_bound, set_generation8, set_move16. entry_cbn.
  rewrite E, Hex. reflexivity.
Qed.

Ltac exact_bits Hex :=
  repeat match goal with
  | E : (_ =? BOUND_EXACT) = true |- _ =>
      apply Z.eqb_eq in E; subst; destruct Hex as [? ?]
  end.

(** *** Typing *)

Lemma set_generation_wf e g : entry_wf e -> entry_wf (set_generation e g).
Proof.
  intros [Hk Hm Hb Hg Hvl Hdl Hvu Hdu]. destruct e.
  constructor; entry_cbn; unfold set_generation; entry_cbn;
    auto using uint8_range.
Qed.

Lemma apply_op_wf e op : entry_wf e -> entry_wf (apply_op e op).
Proof.
  destruct op; cbn [apply_op]; intros; auto using save_wf, update_wf.
Qed.

(** Every write leaves each field within the range of its declared type:
    [save] whatever the slot held, [update] and [set_generation] on a
    well-typed record, and so any sequence of writes. *)
Lemma writes_keep_fields_typed e k v b d m g ops :
  entry_wf (save e k v b d m g) /\
  (entry_wf e -> entry_wf (update e v b d m g)) /\
  (entry_wf e -> entry_wf (set_generation e g)) /\
  (entry_wf e -> entry_wf (run_ops e ops)).
Proof.
  split; [apply save_wf|]. split; [apply update_wf|].
  split; [apply set_generation_wf|].
  revert e. induction ops as [|op ops IH]; intros e He; [exact He|].
  cbn [run_ops fold_left]. apply IH, apply_op_wf, He.
Qed.

(** X6. The bound flags never leave the bits of the [Bound] enumeration: if the
    stored flags and the bound argument fit in [n] bits ([n] at least 2, so
    that both bound bits are there), so do the flags after a merge. *)
Theorem update_flags_stay_in_mask e v b d m g n :
  2 <= n <= 8 -> 0 <= bound e < 2 ^ n -> 0 <= b < 2 ^ n ->
  0 <= type (update e v b d m g) < 2 ^ n.
Proof.
  intros Hn He Hb.
  assert (Hfit : forall x, 0 <= x < 2 ^ n <-> Z.land x (Z.ones n) = x).
  { intros x. rewrite Z.land_ones by lia. split.
    - intros Hx. apply Z.mod_small, Hx.
    - intros <-. apply Z.mod_pos_bound, Z.pow_pos_nonneg; lia. }
  assert (H8 : forall x, 0 <= x < 2 ^ n -> uint8 x = x).
  { intros x Hx. apply uint8_small. unfold in_uint8.
    assert (2 ^ n <= 2 ^ 8) by (apply Z.pow_le_mono_r; lia). lia. }
  assert (Hor : forall x y, 0 <= x < 2 ^ n -> 0 <= y < 2 ^ n ->
                            0 <= Z.lor x y < 2 ^ n).
  { intros x y Hx Hy. apply Hfit. apply Hfit in Hx, Hy.
    rewrite Z.land_lor_distr_l, Hx, Hy. reflexivity. }
  assert (Hxor : forall x y, 0 <= x < 2 ^ n -> 0 <= y < 2 ^ n ->
                             0 <= Z.lxor x y < 2 ^ n).
  { intros x y Hx Hy. apply Hfit. apply Hfit in Hx, Hy.
    rewrite <- Hx, <- Hy at 2. apply Z.bits_inj'. intros i Hi.
    rewrite Z.land_spec, !Z.lxor_spec, !Z.land_spec.
    destruct (Z.testbit x i), (Z.testbit y i), (Z.testbit (Z.ones n) i);
      reflexivity. }
  assert (Hsmall : forall c, 0 <= c < 4 -> 0 <= c < 2 ^ n).
  { intros c Hc. assert (2 ^ 2 <= 2 ^ n) by (apply Z.pow_le_mono_r; lia). lia. }
  assert (H1 : 0 <= BOUND_UPPER < 2 ^ n) by (apply Hsmall; unfold BOUND_UPPER; lia).
  assert (H2 : 0 <= BOUND_LOWER < 2 ^ n) by (apply Hsmall; unfold BOUND_LOWER; lia).
  assert (H3 : 0 <= uint8 (Z.lor BOUND_UPPER BOUND_LOWER) < 2 ^ n)
    by (apply Hsmall; change (uint8 (Z.lor BOUND_UPPER BOUND_LOWER)) with 3; lia).
  destruct e as [k mv bd gn vl dl vu du]. entry_cbn.
  unfold update, update_upper, update_lower. entry_cbn.
  rewrite (H8 b) by assumption.
  split_ifs.
  all: repeat first
         [ rewrite H8
         | apply Hor
         | apply Hxor
         | assumption ].
Qed.

(** *** What a merge leaves alone *)

Lemma apply_update_key e op : is_update op = true -> key (apply_op e op) = key e.
Proof.
  destruct op; cbn [is_update apply_op]; [discriminate|].
  intros _. apply update_key32.
Qed.

(** X2. A merge never touches the fingerprint, nor does a touch; so the
    fingerprint written by [save] survives any number of merges. *)
Theorem update_keeps_key e k v b d m g ops :
  key (update e v b d m g) = key e /\
  key (set_generation e g) = key e /\
  (forallb is_update ops = true ->
   key (run_ops e ops) = key e /\
   key (run_ops (save e k v b d m g) ops) = uint32 k).
Proof.
  split; [apply update_key32|]. split; [destruct e; reflexivity|].
  intros Hops.
  assert (Hrun : forall e0, key (run_ops e0 ops) = key e0).
  { induction ops as [|op ops IH]; intros e0; [reflexivity|].
    cbn [forallb] in Hops. apply andb_true_iff in Hops as [Hop Hops].
    cbn [run_ops fold_left]. fold (run_ops (apply_op e0 op) ops).
    rewrite IH by assumption. apply apply_update_key, Hop. }
  split; [apply Hrun|]. rewrite Hrun, save_fields. reflexivity.
Qed.

(** X7. A merge never sets a bound bit that neither the record nor the bound
    argument had. *)
Theorem update_invents_no_bit e v b d m g :
  exact_has_both ->
  let e' := update e v b d m g in
  (has_upper e' = true ->
   has_upper e = true \/ truthy (Z.land b BOUND_UPPER) = true) /\
  (has_lower e' = true ->
   has_lower e = true \/ truthy (Z.land b BOUND_LOWER) = true).
Proof.
  intros Hex. destruct e as [k mv bd gn vl dl vu du]. cbv zeta.
  unfold update, update_upper, update_lower. bits.
  split_ifs; exact_bits Hex; bits; bool_close.
Qed.

(** *** The window between the bounds *)

Lemma save_window e k v b d m g : window_consistent (save e k v b d m g).
Proof.
  rewrite save_fields. unfold window_consistent. bits.
  intros -> ->. lia.
Qed.

Lemma update_window e v b d m g :
  exact_has_both -> in_int16 v ->
  window_consistent e -> window_consistent (update e v b d m g).
Proof.
  intros Hex Hv. destruct e as [k mv bd gn vl dl vu du].
  unfold window_consistent, update, update_upper, update_lower.
  bits. rewrite !(int16_small v) by assumption.
  intros Hw.
  split_ifs; exact_bits Hex; bits; bool_close.
Qed.

(** X3. As long as the values written fit in 16 bits, a record that holds both
    bounds never holds a lower value above its upper value: [save]
    establishes this, every merge preserves it, and so does any sequence of
    writes. *)
Theorem window_consistent_maintained e k v b d m g ops :
  window_consistent (save e k v b d m g) /\
  (exact_has_both -> in_int16 v -> window_consistent e ->
   window_consistent (update e v b d m g)) /\
  (exact_has_both -> Forall op_value_in_range ops -> window_consistent e ->
   window_consistent (run_ops e ops)).
Proof.
  split; [apply save_window|]. split; [apply update_window|].
  intros Hex Hops. revert e.
  induction Hops as [|op ops Hop Hops IH]; intros e He; [exact He|].
  cbn [run_ops fold_left]. apply IH.
  destruct op; cbn [apply_op op_value_in_range] in *;
    auto using save_window, update_window.
Qed.

(** *** How writes compose *)

(** X4. Merging the same result twice is the same as merging it once, for a
    value that fits in 16 bits and EXACT being the two bits. *)
Theorem update_idempotent e v b d m g :
  exact_is_both -> in_int16 v ->
  update (update e v b d m g) v b d m g = update e v b d m g.
Proof.
  intros Hex Hv. rewrite !(update_without_drop _ v b d m g Hex).
  destruct e as [k mv bd gn vl dl vu du].
  remember
    (let e1 := set_generation8
                 (set_move16 (mkTTEntry k mv bd gn vl dl vu du) (uint16 m))
                 (uint8 g) in
     let e2 := update_lower (update_upper e1 v b d) v b d in
     set_bound e2 (uint8 (Z.lor (bound e2) (uint8 b)))) as r eqn:Hr.
  cbv zeta in Hr.
  unfold update_upper, update_lower in Hr. entry_cbn.
  rewrite (int16_small v) in Hr by assumption.
  revert Hr. split_ifs; intros ->.
  all: cbv zeta; unfold update_upper, update_lower; entry_cbn.
  all: rewrite ?(int16_small v) by assumption.
  all: split_prune.
  all: apply entry_ext; entry_cbn; try reflexivity.
  all: flag_eq.
Qed.


(** X5. Merging into a record the very result it was just initialised with
    changes nothing. *)
Theorem update_after_save_same e k v b d m g :
  exact_has_both -> in_int16 v ->
  update (save e k v b d m g) v b d m g = save e k v b d m g.
Proof.
  intros [Hex0 Hex1] Hv. rewrite save_fields.
  unfold update, update_upper, update_lower. entry_cbn.
  rewrite ?truthy_upper, ?truthy_lower.
  destruct (Z.testbit b 0) eqn:B0, (Z.testbit b 1) eqn:B1;
    rewrite ?(int16_small v) by assumption.
  all: split_prune.
  all: apply entry_ext; entry_cbn; try reflexivity.
  all: try (unfold uint16, uint8; rewrite Z.mod_mod by lia; reflexivity).
  all: try flag_eq.
  all: match goal with
       | E : (uint8 ?x =? BOUND_EXACT) = true |- _ =>
           apply Z.eqb_eq in E;
           assert (E0 : Z.testbit x 0 = true)
             by (rewrite <- testbit_uint8_0, E; assumption);
           assert (E1 : Z.testbit x 1 = true)
             by (rewrite <- testbit_uint8_1, E; assumption)
       end.
  all: try congruence.
  all: change (uint8 (Z.lor BOUND_UPPER BOUND_LOWER)) with (Z.ones 2).
  all: rewrite lor_ones_2_absorb, uint8_idem
         by (rewrite ?testbit_uint8_0, ?testbit_uint8_1; assumption).
  all: reflexivity.
Qed.

(** X8. A touch composes with the writes as one expects: after a merge or an
    initialisation it only replaces the generation the write had stamped, and
    before a merge it is forgotten. *)
Theorem set_generation_composes e k v b d m g g' :
  set_generation (update e v b d m g) g' = update e v b d m g' /\
  set_generation (save e k v b d m g) g' = save e k v b d m g' /\
  update (set_generation e g') v b d m g = update e v b d m g /\
  set_generation (set_generation e g) g' = set_generation e g'.
Proof.
  destruct e as [ke mv bd gn vl dl vu du].
  split; [|split; [|split]].
  - unfold set_generation, update, update_upper, update_lower. entry_cbn.
    split_ifs; reflexivity.
  - rewrite !save_fields. reflexivity.
  - reflexivity.
  - reflexivity.
Qed.

(** X9. What [save] stores reads back as the argument exactly when the argument
    fits the field: the fingerprint in 32 bits, the move in 16, the
    generation and the bound in 8, and value and depth (for a pair whose bit
    is in the bound) in 16 signed bits. *)
Theorem save_reads_back_iff_in_range e k v b d m g :
  let e' := save e k v b d m g in
  (key e' = k <-> in_uint32 k) /\
  (move e' = m <-> in_uint16 m) /\
  (generation e' = g <-> in_uint8 g) /\
  (type e' = b <-> in_uint8 b) /\
  (truthy (Z.land b BOUND_LOWER) = true ->
   (value e' = v <-> in_int16 v) /\ (depth e' = d <-> in_int16 d)) /\
  (truthy (Z.land b BOUND_UPPER) = true ->
   (value_upper e' = v <-> in_int16 v) /\ (depth_upper e' = d <-> in_int16 d)).
Proof.
  cbv zeta. rewrite save_fields. entry_cbn.
  rewrite truthy_upper, truthy_lower.
  assert (R32 : forall x, uint32 x = x <-> in_uint32 x).
  { intros x. split; [intros <-; apply uint32_range | apply uint32_small]. }
  assert (R16 : forall x, uint16 x = x <-> in_uint16 x).
  { intros x. split; [intros <-; apply uint16_range | apply uint16_small]. }
  assert (R8 : forall x, uint8 x = x <-> in_uint8 x).
  { intros x. split; [intros <-; apply uint8_range | apply uint8_small]. }
  assert (RI : forall x, int16 x = x <-> in_int16 x).
  { intros x. split; [intros <-; apply int16_range | apply int16_small]. }
  split; [apply R32|]. split; [apply R16|].
  split; [apply R8|]. split; [apply R8|].
  split; intros ->; split; apply RI.
Qed.

(** X10. Merging into a record that holds no bound (and so, by the invariant,
    only sentinels) is the same as initialising it under its own
    fingerprint. *)
Theorem update_without_bounds_is_save e v b d m g :
  exact_has_both -> in_uint32 (key e) ->
  type e = BOUND_NONE -> pair_invariant e ->
  update e v b d m g = save e (key e) v b d m g.
Proof.
  intros [Hex0 Hex1] Hk Hb [HU HL].
  rewrite save_fields. destruct e as [ke mv bd gn vl dl vu du].
  unfold value_none16, depth_none16, has_upper, has_lower, BOUND_NONE in *.
  entry_cbn. subst bd.
  destruct (HU eq_refl) as [-> ->]. destruct (HL eq_refl) as [-> ->].
  rewrite (uint32_small ke) by assumption.
  unfold update, update_upper, update_lower. entry_cbn.
  rewrite ?truthy_upper, ?truthy_lower.
  destruct (Z.eqb_spec 0 BOUND_EXACT) as [E|_];
    [rewrite <- E in Hex0; discriminate|].
  entry_cbn.
  destruct (Z.testbit b 0) eqn:B0, (Z.testbit b 1) eqn:B1; entry_cbn.
  all: rewrite ?testbit_uint8_0, ?testbit_uint8_1, ?Z.bits_0; cbn [andb].
  all: apply entry_ext; entry_cbn; try reflexivity.
  all: rewrite Z.lor_0_l; apply uint8_idem.
Qed.

End MoreEntryFacts.

(** ** Addressing and touching *)

Section MoreTableFacts.

Lemma land_le_mask a m : 0 <= a -> 0 <= m -> Z.land a m <= m.
Proof.
  intros Ha Hm.
  rewrite <- (Z2N.id a), <- (Z2N.id m) at 1 by assumption.
  rewrite <- N2Z.inj_land.
  rewrite <- (Z2N.id m) at 2 by assumption.
  apply N2Z.inj_le, N.land_le_r.
Qed.

(** X11. Whatever the number of clusters, power of two or not, as long as there
    is at least one the index [first_entry] computes is inside the table. *)
Theorem first_entry_in_bounds tt posKey :
  1 <= TT.size tt <= 2 ^ 64 ->
  0 <= TT.cluster_index tt posKey < TT.size tt.
Proof.
  intros Hs. unfold TT.cluster_index, size_t.
  rewrite (Z.mod_small (TT.size tt - 1)) by lia.
  pose proof (uint32_range posKey) as Hk. unfold in_uint32 in Hk.
  split.
  - apply Z.land_nonneg. left. lia.
  - pose proof (land_le_mask (uint32 posKey) (TT.size tt - 1)). lia.
Qed.

(** X12. A table of zero clusters makes the mask all ones: the index is then the
    low 32 bits of the key, outside the empty table. *)
Theorem first_entry_zero_size tt posKey :
  TT.size tt = 0 ->
  TT.cluster_index tt posKey = uint32 posKey /\
  ~ TT.cluster_index tt posKey < TT.size tt.
Proof.
  intros Hs.
  assert (E : TT.cluster_index tt posKey = uint32 posKey).
  { unfold TT.cluster_index. rewrite Hs.
    change (size_t (0 - 1)) with (Z.ones 64).
    rewrite Z.land_ones by lia.
    pose proof (uint32_range posKey) as Hk. unfold in_uint32 in Hk.
    apply Z.mod_small. lia. }
  split; [exact E|]. rewrite E, Hs.
  pose proof (uint32_range posKey) as Hk. unfold in_uint32 in Hk. lia.
Qed.

(** X13. In a table of [2 ^ n] clusters with [n] at most 32, every cluster is
    addressed by the key equal to its index, and keys that differ by a
    multiple of the size share a cluster. *)
Theorem first_entry_reaches_every_cluster tt n i j :
  0 <= n <= 32 -> TT.size tt = 2 ^ n -> 0 <= i < TT.size tt ->
  TT.cluster_index tt i = i /\
  TT.cluster_index tt (i + j * TT.size tt) = i.
Proof.
  intros Hn Hs Hi.
  rewrite !(cluster_index_pow2 tt _ n) by (assumption || lia).
  rewrite Z.min_l by lia. rewrite Hs in *.
  assert (0 < 2 ^ n) by (apply Z.pow_pos_nonneg; lia).
  rewrite Z.mod_add by lia.
  split; apply Z.mod_small; assumption.
Qed.

Lemma write_write tt p f g :
  TT.write (TT.write tt p f) p g = TT.write tt p (fun e => g (f e)).
Proof.
  unfold TT.write. cbn [TT.entries TT.set_entries TT.size TT.generation].
  unfold TT.set_entries. cbn [TT.size TT.generation]. f_equal.
  rewrite list_alter_alter_eq. apply list_alter_ext; [|reflexivity].
  intros c _. cbn. f_equal. apply list_alter_alter_eq.
Qed.

Lemma write_comm tt p q f g :
  p <> q ->
  TT.write (TT.write tt p f) q g = TT.write (TT.write tt q g) p f.
Proof.
  intros Hne. unfold TT.write. cbn [TT.entries TT.set_entries].
  unfold TT.set_entries. cbn [TT.size TT.generation]. f_equal.
  destruct (decide (cluster_of p = cluster_of q)) as [Hc|Hc].
  - rewrite Hc, !list_alter_alter_eq. apply list_alter_ext; [|reflexivity].
    intros c _. cbn. f_equal. apply list_alter_alter_ne.
    intros Hs. apply Hne. destruct p, q. cbn in *. congruence.
  - apply list_alter_alter_ne. congruence.
Qed.

(** X14. [refresh] changes neither the size of the table, nor its generation,
    nor the number of its clusters; refreshing a record twice is the same as
    refreshing it once, and two refreshes give the same table in either
    order. *)
Theorem refresh_idempotent_commutes tt p q :
  TT.refresh (TT.refresh tt p) p = TT.refresh tt p /\
  TT.refresh (TT.refresh tt p) q = TT.refresh (TT.refresh tt q) p /\
  TT.size (TT.refresh tt p) = TT.size tt /\
  TT.generation (TT.refresh tt p) = TT.generation tt /\
  length (TT.entries (TT.refresh tt p)) = length (TT.entries tt).
Proof.
  split; [|split; [|split; [|split]]].
  - unfold TT.refresh at 1 2.
    change (TT.generation (TT.write tt p _)) with (TT.generation tt).
    rewrite write_write. unfold TT.refresh, TT.write. f_equal.
  - assert (Hpq : p = q \/ p <> q).
    { destruct p as [cp sp], q as [cq sq].
      destruct (decide (cp = cq)) as [->|Hc], (decide (sp = sq)) as [->|Hs];
        [left; reflexivity | right; congruence ..]. }
    destruct Hpq as [->|Hne]; [reflexivity|].
    unfold TT.refresh.
    change (TT.generation (TT.write tt p _)) with (TT.generation tt).
    change (TT.generation (TT.write tt q _)) with (TT.generation tt).
    apply write_comm, Hne.
  - reflexivity.
  - reflexivity.
  - unfold TT.refresh, TT.write. cbn [TT.entries TT.set_entries].
    apply length_alter.
Qed.

End MoreTableFacts.

(** ** The further properties at concrete inputs *)

Lemma lower_only_window : window_consistent lower_only.
Proof. intros Hbit. vm_compute in Hbit. discriminate. Defined.

Lemma no_bound_invariant : @pair_invariant sample_types no_bound.
Proof. split; intros _; split; reflexivity. Defined.

Lemma update_keeps_key_witness :
  forallb is_update [OpUpdate 30 BOUND_UPPER 8 2 2; OpUpdate 60 BOUND_LOWER 12 5 3]
    = true /\
  key (@run_ops sample_types lower_only
         [OpUpdate 30 BOUND_UPPER 8 2 2; OpUpdate 60 BOUND_LOWER 12 5 3])
    = key lower_only.
Proof.
  assert (Hops : forallb is_update
                   [OpUpdate 30 BOUND_UPPER 8 2 2; OpUpdate 60 BOUND_LOWER 12 5 3]
                 = true) by reflexivity.
  split; [exact Hops|].
  destruct (@update_keeps_key sample_types lower_only 0 0 0 0 0 0
              [OpUpdate 30 BOUND_UPPER 8 2 2; OpUpdate 60 BOUND_LOWER 12 5 3])
    as (_ & _ & Hrun).
  apply (Hrun Hops).
Defined.

Lemma window_consistent_maintained_witness :
  @exact_has_both sample_types /\ in_int16 60 /\
  window_consistent lower_only /\
  window_consistent (@update sample_types lower_only 60 BOUND_UPPER 8 2 2).
Proof.
  assert (Hv : in_int16 60) by range.
  split; [exact sample_exact_has_both|]. split; [exact Hv|].
  split; [exact lower_only_window|].
  destruct (@window_consistent_maintained sample_types lower_only 0
              60 BOUND_UPPER 8 2 2 []) as (_ & Hupdate & _).
  exact (Hupdate sample_exact_has_both Hv lower_only_window).
Defined.

Lemma update_idempotent_witness :
  @exact_is_both sample_types /\ in_int16 30 /\
  @update sample_types (@update sample_types lower_only 30 BOUND_UPPER 8 2 2)
    30 BOUND_UPPER 8 2 2
  = @update sample_types lower_only 30 BOUND_UPPER 8 2 2.
Proof.
  assert (Hv : in_int16 30) by range.
  split; [exact sample_exact_is_both|]. split; [exact Hv|].
  exact (@update_idempotent sample_types lower_only 30 BOUND_UPPER 8 2 2
           sample_exact_is_both Hv).
Defined.

Lemma update_after_save_same_witness :
  @exact_has_both sample_types /\ in_int16 50 /\
  @update sample_types (@save sample_types zero_entry 4660 50 3 10 7 1)
    50 3 10 7 1
  = @save sample_types zero_entry 4660 50 3 10 7 1.
Proof.
  assert (Hv : in_int16 50) by range.
  split; [exact sample_exact_has_both|]. split; [exact Hv|].
  exact (@update_after_save_same sample_types zero_entry 4660 50 3 10 7 1
           sample_exact_has_both Hv).
Defined.

Lemma update_flags_stay_in_mask_witness :
  2 <= 2 <= 8 /\ 0 <= bound lower_only < 2 ^ 2 /\ 0 <= BOUND_UPPER < 2 ^ 2 /\
  0 <= type (@update sample_types lower_only 60 BOUND_UPPER 8 2 2) < 2 ^ 2.
Proof.
  assert (Hn : 2 <= 2 <= 8) by lia.
  assert (He : 0 <= bound lower_only < 2 ^ 2) by (cbn; lia).
  assert (Hb : 0 <= BOUND_UPPER < 2 ^ 2) by (unfold BOUND_UPPER; lia).
  split; [exact Hn|]. split; [exact He|]. split; [exact Hb|].
  exact (@update_flags_stay_in_mask sample_types lower_only 60 BOUND_UPPER 8 2 2
           2 Hn He Hb).
Defined.

Lemma update_invents_no_bit_witness :
  @exact_has_both sample_types /\
  (has_upper (@update sample_types lower_only 60 BOUND_LOWER 12 7 9) = true ->
   has_upper lower_only = true \/ truthy (Z.land BOUND_LOWER BOUND_UPPER) = true).
Proof.
  split; [exact sample_exact_has_both|].
  destruct (@update_invents_no_bit sample_types lower_only 60 BOUND_LOWER 12 7 9
              sample_exact_has_both) as (Hupper & _).
  exact Hupper.
Defined.

Lemma save_reads_back_iff_in_range_witness :
  truthy (Z.land 3 BOUND_LOWER) = true /\
  (value (@save sample_types zero_entry 4660 50 3 10 7 1) = 50 <-> in_int16 50).
Proof.
  assert (Hb : truthy (Z.land 3 BOUND_LOWER) = true) by reflexivity.
  split; [exact Hb|].
  destruct (@save_reads_back_iff_in_range sample_types zero_entry 4660 50 3 10 7 1)
    as (_ & _ & _ & _ & Hlower & _).
  destruct (Hlower Hb) as (Hvalue & _). exact Hvalue.
Defined.

Lemma update_without_bounds_is_save_witness :
  @exact_has_both sample_types /\ in_uint32 (key no_bound) /\
  type no_bound = BOUND_NONE /\ @pair_invariant sample_types no_bound /\
  @update sample_types no_bound 40 BOUND_LOWER 9 5 2
  = @save sample_types no_bound (key no_bound) 40 BOUND_LOWER 9 5 2.
Proof.
  assert (Hk : in_uint32 (key no_bound)) by (cbn; range).
  assert (Hb : type no_bound = BOUND_NONE) by reflexivity.
  split; [exact sample_exact_has_both|]. split; [exact Hk|].
  split; [exact Hb|]. split; [exact no_bound_invariant|].
  exact (@update_without_bounds_is_save sample_types no_bound 40 BOUND_LOWER 9 5 2
           sample_exact_has_both Hk Hb no_bound_invariant).
Defined.

(** The hypothesis on the value cannot be dropped: a merged upper value that
    does not fit in 16 bits is stored truncated, below the lower value. *)
Example wide_value_breaks_window :
  let e' := @update sample_types lower_only 40000 BOUND_UPPER 8 2 2 in
  has_upper e' = true /\ has_lower e' = true /\
  valueLower e' = 50 /\ valueUpper e' = -25536.
Proof. repeat split. Qed.

Lemma first_entry_in_bounds_witness :
  1 <= TT.size (TT.mk 1000 [] 0) <= 2 ^ 64 /\
  0 <= TT.cluster_index (TT.mk 1000 [] 0) 81985529216486895
     < TT.size (TT.mk 1000 [] 0).
Proof.
  assert (Hs : 1 <= TT.size (TT.mk 1000 [] 0) <= 2 ^ 64) by (cbn; lia).
  split; [exact Hs|].
  exact (first_entry_in_bounds (TT.mk 1000 [] 0) 81985529216486895 Hs).
Defined.

Lemma first_entry_zero_size_witness :
  TT.size (TT.mk 0 [] 0) = 0 /\
  TT.cluster_index (TT.mk 0 [] 0) 81985529216486895
  = uint32 81985529216486895.
Proof.
  assert (Hs : TT.size (TT.mk 0 [] 0) = 0) by reflexivity.
  split; [exact Hs|].
  destruct (first_entry_zero_size (TT.mk 0 [] 0) 81985529216486895 Hs)
    as (E & _).
  exact E.
Defined.

Lemma first_entry_reaches_every_cluster_witness :
  0 <= 10 <= 32 /\ TT.size (TT.mk 1024 [] 0) = 2 ^ 10 /\
  0 <= 777 < TT.size (TT.mk 1024 [] 0) /\
  TT.cluster_index (TT.mk 1024 [] 0) 777 = 777 /\
  TT.cluster_index (TT.mk 1024 [] 0) (777 + 5 * TT.size (TT.mk 1024 [] 0)) = 777.
Proof.
  assert (Hn : 0 <= 10 <= 32) by lia.
  assert (Hs : TT.size (TT.mk 1024 [] 0) = 2 ^ 10) by reflexivity.
  assert (Hi : 0 <= 777 < TT.size (TT.mk 1024 [] 0)) by (cbn; lia).
  split; [exact Hn|]. split; [exact Hs|]. split; [exact Hi|].
  exact (first_entry_reaches_every_cluster (TT.mk 1024 [] 0) 10 777 5 Hn Hs Hi).
Defined.
